(** * docker-list-tags: a shallow embedding of [docker-list-tags.py]

    The script is a thin client of the Docker Registry HTTP API V2: a class
    [Registry] (token refresh on a 401 challenge, tag listing, digest lookup,
    grouping of tags by digest) and a command-line driver.

    Python strings are [string]s whose characters are read as Latin-1 code
    points (the way [http.client] decodes header text).  Dictionaries are
    association lists kept in insertion order.  Exceptions are a sum type and
    every operation of the class is a function in a state-and-error monad over
    the registry object, the network, the log of requests and standard
    output. *)

From Stdlib Require Import String Ascii List ZArith NArith Bool Lia DecimalString
  Permutation.
Import ListNotations.

Open Scope string_scope.
Open Scope list_scope.

(** Python's [+] on [str]. *)
Infix "+++" := String.append (right associativity, at level 60).

(** ** Characters and the two regular expressions of [api_call] *)

Definition quote : ascii := ascii_of_nat 34.

(** [\s] of a [str] pattern, restricted to code points below 256. *)
Definition is_space (c : ascii) : bool :=
  let n := N_of_ascii c in
  (((9 <=? n) && (n <=? 13)) || ((28 <=? n) && (n <=? 32))
   || (n =? 133) || (n =? 160))%N.

(** [\w] of a [str] pattern, restricted to code points below 256: the
    alphanumeric characters of Unicode and the underscore. *)
Definition is_word (c : ascii) : bool :=
  let n := N_of_ascii c in
  (((48 <=? n) && (n <=? 57)) || ((65 <=? n) && (n <=? 90)) || (n =? 95)
   || ((97 <=? n) && (n <=? 122))
   || (n =? 170) || (n =? 178) || (n =? 179) || (n =? 181) || (n =? 185)
   || (n =? 186) || ((188 <=? n) && (n <=? 190))
   || ((192 <=? n) && (n <=? 214)) || ((216 <=? n) && (n <=? 246))
   || (248 <=? n))%N.

(** A character other than the space, the double quote (code 34) and the
    comma: the class of the bare value. *)
Definition is_bare (c : ascii) : bool :=
  negb (Ascii.eqb c " " || Ascii.eqb c quote || Ascii.eqb c ",").

(** A character other than the double quote: the class of the quoted value. *)
Definition is_unquote (c : ascii) : bool := negb (Ascii.eqb c quote).

(** The longest prefix of characters in a class, and what follows it: a
    greedy [c+] or [c*] whose continuation cannot start with a [c]. *)
Fixpoint span (p : ascii -> bool) (s : string) : string * string :=
  match s with
  | String c s' =>
      if p c then let (a, b) := span p s' in (String c a, b)
      else (EmptyString, s)
  | EmptyString => (EmptyString, EmptyString)
  end.

Fixpoint strip_prefix (p s : string) : option string :=
  match p with
  | EmptyString => Some s
  | String a p' =>
      match s with
      | String b s' => if Ascii.eqb a b then strip_prefix p' s' else None
      | EmptyString => None
      end
  end.

(** [Bearer\s+] anchored at the start of [s]: the text after the match. *)
Definition match_bearer (s : string) : option string :=
  match strip_prefix "Bearer" s with
  | Some (String c r) => if is_space c then Some (snd (span is_space r)) else None
  | _ => None
  end.

(** [match = re.search(r'Bearer\s+', auth)] followed by
    [auth[match.end():]]: the leftmost match wins; [None] is no match. *)
Fixpoint search_bearer (auth : string) : option string :=
  match match_bearer auth with
  | Some r => Some r
  | None =>
      match auth with
      | String _ s' => search_bearer s'
      | EmptyString => None
      end
  end.

(** One match of [(\w+)=(?:([^ \x22,]+)|\x22([^\x22]+)\x22)] (the pattern of
    the source, its double quotes spelled [\x22]) anchored at the start of
    [s]: the three groups (an unmatched group is the empty string, as
    [findall] reports it) and the number of characters matched.  [=] is no
    word character and a closing quote is no unquoted character, so only the
    longest run of each class can be followed by what the pattern asks
    next. *)
Definition match_pair (s : string) : option ((string * string * string) * nat) :=
  let (key, r) := span is_word s in
  match key, r with
  | String _ _, String "=" r1 =>
      let (bare, _) := span is_bare r1 in
      match bare with
      | String _ _ => Some ((key, bare, ""), String.length key + 1 + String.length bare)
      | EmptyString =>
          match r1 with
          | String q r2 =>
              if Ascii.eqb q quote then
                let (quoted, r3) := span is_unquote r2 in
                match quoted, r3 with
                | String _ _, String _ _ =>
                    Some ((key, "", quoted), String.length key + 1 + (1 + String.length quoted + 1))
                | _, _ => None
                end
              else None
          | EmptyString => None
          end
      end
  | _, _ => None
  end.

(** [re.findall]: matches are tried at each position from the left; after a
    match the scan resumes where it ended.  [skip] counts the characters of
    the last match still to be passed over. *)
Fixpoint findall_from (skip : nat) (s : string) : list (string * string * string) :=
  match skip with
  | S k =>
      match s with
      | String _ s' => findall_from k s'
      | EmptyString => []
      end
  | O =>
      match match_pair s with
      | Some (g, n) =>
          g :: match s with
               | String _ s' => findall_from (n - 1) s'
               | EmptyString => []
               end
      | None =>
          match s with
          | String _ s' => findall_from 0 s'
          | EmptyString => []
          end
      end
  end.

Definition findall_pairs (s : string) : list (string * string * string) :=
  findall_from 0 s.

(** ** Dictionaries in insertion order *)

Section Dict.
Context {K V : Type} (eqb : K -> K -> bool).

Definition dict := list (K * V).

(** [d.get(k)] *)
Fixpoint dict_get (k : K) (d : dict) : option V :=
  match d with
  | [] => None
  | (k', v) :: d' => if eqb k k' then Some v else dict_get k d'
  end.

(** [d[k] = v]: an existing key keeps its place. *)
Fixpoint dict_set (k : K) (v : V) (d : dict) : dict :=
  match d with
  | [] => [(k, v)]
  | (k', v') :: d' =>
      if eqb k k' then (k', v) :: d' else (k', v') :: dict_set k v d'
  end.

Definition keys (d : dict) : list K := map fst d.
End Dict.

Arguments dict : clear implicits.

(** [{group[0]: group[1] or group[2] for group in match}] *)
Definition or_str (a b : string) : string :=
  match a with
  | EmptyString => b
  | _ => a
  end.

Definition challenge_dict (groups : list (string * string * string))
  : dict string string :=
  fold_left (fun d '(k, g1, g2) => dict_set String.eqb k (or_str g1 g2) d) groups [].

(** ** Python values, exceptions and results *)

#[local] Set Warnings "-register-all".

(** The values [json.load] builds, which are also the values a tag, a digest
    key or the token can hold.  Numbers are kept as integers. *)
Inductive value : Type :=
| VNone
| VBool (b : bool)
| VInt (n : Z)
| VStr (s : string)
| VList (l : list value)
| VDict (d : list (string * value)).

(** What [urlopen] returns and what an [HTTPError] carries: the error object
    of [urllib] is a response, built as [HTTPError(url, code, msg, hdrs, fp)]. *)
Record response : Type := Response {
  resp_url : string;
  code : Z;
  msg : string;
  headers : list (string * string);
  fp : string
}.

Inductive exn : Type :=
| HTTPError (exception : response)
| KeyError (key : option string)
| TypeError
| ValueError
| SystemExit (status : Z).

Inductive result (A : Type) : Type :=
| Ok (a : A)
| Raise (e : exn).

Arguments Ok {A} a.
Arguments Raise {A} e.

(** Truth value of an object, as [if] tests it. *)
Definition truthy (v : value) : bool :=
  match v with
  | VNone => false
  | VBool b => b
  | VInt n => negb (n =? 0)%Z
  | VStr s => negb (s =? "")
  | VList l => match l with [] => false | _ => true end
  | VDict d => match d with [] => false | _ => true end
  end.

(** [s + v] for a [str] on the left. *)
Definition str_add (s : string) (v : value) : result string :=
  match v with
  | VStr t => Ok (s +++ t)
  | _ => Raise TypeError
  end.

(** [v[k]] for a [str] key: only a [dict] can be subscripted by one. *)
Definition getitem (v : value) (k : string) : result value :=
  match v with
  | VDict d =>
      match dict_get String.eqb k d with
      | Some x => Ok x
      | None => Raise (KeyError (Some k))
      end
  | _ => Raise TypeError
  end.

(** [d[k]] on the dictionary of challenge parameters. *)
Definition subscript (d : dict string string) (k : string) : result string :=
  match dict_get String.eqb k d with
  | Some x => Ok x
  | None => Raise (KeyError (Some k))
  end.

Fixpoint chars (s : string) : list value :=
  match s with
  | EmptyString => []
  | String c s' => VStr (String c EmptyString) :: chars s'
  end.

(** The items a [for] loop draws from an object. *)
Definition iter (v : value) : result (list value) :=
  match v with
  | VList l => Ok l
  | VDict d => Ok (map (fun kv => VStr (fst kv)) d)
  | VStr s => Ok (chars s)
  | _ => Raise TypeError
  end.

(** [sep.join(items)]: every item must be a [str]. *)
Fixpoint join (sep : string) (items : list value) : result string :=
  match items with
  | [] => Ok ""
  | VStr s :: [] => Ok s
  | VStr s :: rest =>
      match join sep rest with
      | Ok t => Ok (s +++ sep +++ t)
      | Raise e => Raise e
      end
  | _ :: _ => Raise TypeError
  end.

(** ** Requests, responses and header lookup *)

Record request : Type := Request {
  req_url : string;
  req_method : string;
  req_headers : dict string string
}.

(** What the server answers to one request. *)
Record reply : Type := Reply {
  status : Z;
  reason : string;
  reply_headers : list (string * string);
  payload : string
}.

Definition lower_char (c : ascii) : ascii :=
  let n := N_of_ascii c in
  if ((65 <=? n) && (n <=? 90))%N then ascii_of_N (n + 32) else c.

Fixpoint lower (s : string) : string :=
  match s with
  | EmptyString => EmptyString
  | String c s' => String (lower_char c) (lower s')
  end.

Fixpoint join_str (sep : string) (l : list string) : string :=
  match l with
  | [] => ""
  | [s] => s
  | s :: rest => s +++ sep +++ join_str sep rest
  end.

(** [response.getheader(name)]: header names compare without case, the
    values of a repeated header are joined, an absent header gives [None]. *)
Definition getheader (hs : list (string * string)) (name : string) : option string :=
  match filter (fun kv => lower (fst kv) =? lower name) hs with
  | [] => None
  | found => Some (join_str ", " (map snd found))
  end.

(** [str(exception)] of an [HTTPError]. *)
Definition str_of_int (n : Z) : string := NilZero.string_of_int (Z.to_int n).

Definition str_HTTPError (e : response) : string :=
  "HTTP Error " +++ str_of_int (code e) +++ ": " +++ msg e.

(** ** The registry object and the world around it *)

Record Registry : Type := mkRegistry {
  url : string;
  token : value
}.

(** ** A sample registry

    A concrete server, with concrete stand-ins for the three library
    functions, on which the statements below are run: a registry that asks
    for a bearer token, its token service, and five hosts that answer every
    request with one fixed 401 response. *)

Definition quoted (s : string) : string := String quote s +++ String quote "".

Definition sample_challenge : string :=
  "Bearer realm=" +++ quoted "https://auth.example/token" +++
  ",service=" +++ quoted "registry.example" +++
  ",scope=" +++ quoted "repository:myrepo/app:pull".

Definition tags_doc : string :=
  "{" +++ quoted "tags" +++ ": [" +++ quoted "v1" +++ ", " +++ quoted "latest" +++
  ", " +++ quoted "old" +++ "]}".

Definition token_doc : string :=
  "{" +++ quoted "token" +++ ": " +++ quoted "sesame" +++ "}".

Definition errors_doc : string :=
  "{" +++ quoted "errors" +++ ":[{" +++ quoted "code" +++ ":" +++
  quoted "NAME_UNKNOWN" +++ "," +++ quoted "message" +++ ":" +++
  quoted "repository not found" +++ "," +++ quoted "detail" +++ ":" +++
  quoted "..." +++ "}]}".

Definition sample_json_loads (s : string) : option value :=
  if s =? tags_doc then
    Some (VDict [("tags", VList [VStr "v1"; VStr "latest"; VStr "old"])])
  else if s =? token_doc then
    Some (VDict [("token", VStr "sesame")])
  else if s =? errors_doc then
    Some (VDict [("errors",
                  VList [VDict [("code", VStr "NAME_UNKNOWN");
                                ("message", VStr "repository not found");
                                ("detail", VStr "...")]])])
  else None.

Definition hex_digit (n : N) : ascii :=
  if (n <? 10)%N then ascii_of_N (48 + n) else ascii_of_N (55 + n).

(** [quote_plus] on ASCII text. *)
Fixpoint sample_quote_plus (s : string) : string :=
  match s with
  | EmptyString => EmptyString
  | String c s' =>
      let n := N_of_ascii c in
      if (((48 <=? n) && (n <=? 57)) || ((65 <=? n) && (n <=? 90))
          || ((97 <=? n) && (n <=? 122))
          || (n =? 95) || (n =? 46) || (n =? 45) || (n =? 126))%N
      then String c (sample_quote_plus s')
      else if (n =? 32)%N then String "+" (sample_quote_plus s')
      else String "%" (String (hex_digit (n / 16))
                         (String (hex_digit (n mod 16)) (sample_quote_plus s')))
  end.

(** [repr] on strings without quotes or escapes, and on [None]. *)
Definition sample_repr (v : value) : string :=
  match v with
  | VStr s => "'" +++ s +++ "'"
  | VNone => "None"
  | _ => "..."
  end.

Definition sample_digest (ref : string) : option string :=
  if (ref =? "v1") || (ref =? "latest") || (ref =? "sha256:abcd") then Some "sha256:abcd"
  else if ref =? "old" then Some "sha256:0000"
  else if ref =? "sha256:9999" then Some "sha256:9999"
  else None.

Definition not_found : reply :=
  {| status := 404; reason := "Not Found";
     reply_headers := [("Content-Type", "application/json")];
     payload := errors_doc |}.

Definition unauthorized (challenge : list (string * string)) : reply :=
  {| status := 401; reason := "Unauthorized"; reply_headers := challenge;
     payload := "" |}.

Definition sample_answer (rq : request) : reply :=
  match strip_prefix "https://registry.example/v2/myrepo/app/" (req_url rq) with
  | Some rest =>
      match dict_get String.eqb "Authorization" (req_headers rq) with
      | Some auth =>
          if auth =? "Bearer sesame" then
            if rest =? "tags/list" then
              {| status := 200; reason := "OK";
                 reply_headers := [("Content-Type", "application/json")];
                 payload := tags_doc |}
            else
              match strip_prefix "manifests/" rest with
              | Some ref =>
                  match sample_digest ref with
                  | Some d =>
                      {| status := 200; reason := "OK";
                         reply_headers := [("Docker-Content-Digest", d)];
                         payload := "" |}
                  | None => not_found
                  end
              | None => not_found
              end
          else unauthorized [("WWW-Authenticate", sample_challenge)]
      | None => unauthorized [("WWW-Authenticate", sample_challenge)]
      end
  | None =>
      if req_url rq =?
         "https://auth.example/token?service=registry.example&scope=repository%3Amyrepo%2Fapp%3Apull"
      then {| status := 200; reason := "OK"; reply_headers := [];
              payload := token_doc |}
      else if prefix "https://basic.example/" (req_url rq) then
        unauthorized [("WWW-Authenticate", "Basic realm=" +++ quoted "registry")]
      else if prefix "https://odd.example/" (req_url rq) then
        unauthorized [("WWW-Authenticate", "Bearer abc")]
      else if prefix "https://partial.example/" (req_url rq) then
        unauthorized [("WWW-Authenticate",
                       "Bearer realm=" +++ quoted "https://auth.example/token")]
      else if prefix "https://bare.example/" (req_url rq) then
        unauthorized []
      else if prefix "https://stubborn.example/" (req_url rq) then
        unauthorized [("WWW-Authenticate", sample_challenge)]
      else not_found
  end.

(** The state of the sample server is the number of requests it answered.
    A [HEAD] request is answered without a body. *)
Definition sample_serve (n : nat) (rq : request) : reply * nat :=
  (if req_method rq =? "HEAD" then
     {| status := status (sample_answer rq); reason := reason (sample_answer rq);
        reply_headers := reply_headers (sample_answer rq); payload := "" |}
   else sample_answer rq, S n).

Section Client.

(** The network: a server with a state of its own answers each request. *)
Variable server : Type.
Variable serve : server -> request -> reply * server.

(** Library functions the script calls and this development does not look
    into: [json.loads] ([None] when the text is no JSON document),
    [urllib.parse.quote_plus] and [repr]. *)
Variable json_loads : string -> option value.
Variable quote_plus : string -> string.
Variable repr : value -> string.

(** [str(v)], which is what a [{}] field of [str.format] prints. *)
Definition str (v : value) : string :=
  match v with
  | VStr s => s
  | _ => repr v
  end.

Record world : Type := World {
  self : Registry;
  net : server;
  sent : list request;
  stdout : list string
}.

(** ** The monad of the script: state and exceptions *)

Definition M (A : Type) : Type := world -> result A * world.

Definition ret {A} (a : A) : M A := fun w => (Ok a, w).

Definition raise {A} (e : exn) : M A := fun w => (Raise e, w).

Definition bind {A B} (c : M A) (k : A -> M B) : M B :=
  fun w =>
    match c w with
    | (Ok a, w') => k a w'
    | (Raise e, w') => (Raise e, w')
    end.

Definition lift {A} (r : result A) : M A := fun w => (r, w).

Notation "x <- c ;; k" := (bind c (fun x => k))
  (at level 61, c at next level, right associativity).
Notation "c ;; k" := (bind c (fun _ => k))
  (at level 61, right associativity).

(** [try: c  except HTTPError as exception: h exception] *)
Definition try_except_HTTPError {A} (c : M A) (h : response -> M A) : M A :=
  fun w =>
    match c w with
    | (Raise (HTTPError exception), w') => h exception w'
    | other => other
    end.

Definition get_self : M Registry := fun w => (Ok (self w), w).

(** [self.token = v] *)
Definition set_token (v : value) : M unit :=
  fun w =>
    (Ok tt, {| self := {| url := url (self w); token := v |};
               net := net w; sent := sent w; stdout := stdout w |}).

(** [print(line)] *)
Definition print (line : string) : M unit :=
  fun w =>
    (Ok tt, {| self := self w; net := net w; sent := sent w;
               stdout := stdout w ++ [line] |}).

(** The response object made of a reply. *)
Definition received (rq : request) (r : reply) : response :=
  {| resp_url := req_url rq; code := status r; msg := reason r;
     headers := reply_headers r; fp := payload r |}.

(** A status outside 200..299 is raised as an [HTTPError] that carries the
    response. *)
Definition outcome (rq : request) (r : reply) : result response :=
  if ((200 <=? status r) && (status r <? 300))%Z
  then Ok (received rq r)
  else Raise (HTTPError (received rq r)).

(** [urllib.request.urlopen(request)]: the request goes to the server and is
    logged.  The reply is the one [urlopen] ends with (a redirect it follows
    is not a reply of its own), and the server always answers: failures of
    the connection are outside the model.  So is a URL that [urllib]
    refuses before anything goes out (for one that names no scheme
    [Request] raises [ValueError]): the URL of the registry and the realm
    of a challenge are taken to be [http] or [https] URLs.  The body of the
    reply is the payload of the server, whatever the method: [http.client]
    reads no body for a [HEAD] request, so the replies true to life have an
    empty payload there, and what holds for every server holds for them. *)
Definition urlopen (rq : request) : M response :=
  fun w =>
    let (r, net') := serve (net w) rq in
    (outcome rq r,
     {| self := self w; net := net'; sent := sent w ++ [rq]; stdout := stdout w |}).

(** [json.load(response)] *)
Definition json_load (r : response) : result value :=
  match json_loads (fp r) with
  | Some v => Ok v
  | None => Raise ValueError
  end.

(** ** class Registry *)

(** [urlencode] of the two parameters of the token request. *)
Definition urlencode_service_scope (service scope : string) : string :=
  "service=" +++ quote_plus service +++ "&" +++ "scope=" +++ quote_plus scope.

Definition token_request (realm service scope : string) : request :=
  {| req_url := realm +++ "?" +++ urlencode_service_scope service scope;
     req_method := "GET";
     req_headers := [] |}.

Definition get_token (realm service scope : string) : M unit :=
  response <- urlopen (token_request realm service scope) ;;
  if negb (code response =? 200)%Z then
    raise (HTTPError {| resp_url := resp_url response;
                        code := code response;
                        msg := "Could not get auth token";
                        headers := headers response;
                        fp := fp response |})
  else
    doc <- lift (json_load response) ;;
    tok <- lift (getitem doc "token") ;;
    set_token tok.

(** [headers = headers or {}] followed by the [Authorization] header when
    a token is held. *)
Definition or_empty (hs : option (dict string string)) : dict string string :=
  match hs with
  | Some ((_ :: _) as h) => h
  | _ => []
  end.

Definition authorize (tok : value) (hs : dict string string)
  : result (dict string string) :=
  match str_add "Bearer " tok with
  | Ok auth => Ok (dict_set String.eqb "Authorization" auth hs)
  | Raise e => Raise e
  end.

Definition with_token (tok : value) (hs : dict string string)
  : result (dict string string) :=
  if truthy tok then authorize tok hs else Ok hs.

(** The [except HTTPError as exception] block of [api_call]. *)
Definition refresh_and_retry (path method : string) (hs : dict string string)
    (exception : response) : M response :=
  if negb (code exception =? 401)%Z then raise (HTTPError exception)
  else
    match getheader (headers exception) "WWW-Authenticate" with
    | None => raise TypeError
    | Some auth =>
        match search_bearer auth with
        | None => raise (HTTPError exception)
        | Some auth =>
            let found := challenge_dict (findall_pairs auth) in
            realm <- lift (subscript found "realm") ;;
            service <- lift (subscript found "service") ;;
            scope <- lift (subscript found "scope") ;;
            get_token realm service scope ;;
            me <- get_self ;;
            hs <- lift (authorize (token me) hs) ;;
            urlopen {| req_url := url me +++ path; req_method := method;
                       req_headers := hs |}
        end
    end.

Definition api_call (path method : string) (hs : option (dict string string))
  : M response :=
  let hs := or_empty hs in
  me <- get_self ;;
  hs <- lift (with_token (token me) hs) ;;
  try_except_HTTPError
    (urlopen {| req_url := url me +++ path; req_method := method; req_headers := hs |})
    (refresh_and_retry path method hs).

Definition list_tags (name : string) : M value :=
  response <- api_call ("/v2/" +++ name +++ "/tags/list") "GET" None ;;
  doc <- lift (json_load response) ;;
  lift (getitem doc "tags").

Definition manifest_list_type : string :=
  "application/vnd.docker.distribution.manifest.list.v2+json".

Definition get_manifests_list_digest (name : string) (ref : value)
  : M (option string) :=
  response <- api_call ("/v2/" +++ name +++ "/manifests/" +++ str ref) "HEAD"
                (Some [("Accept", manifest_list_type)]) ;;
  ret (getheader (headers response) "Docker-Content-Digest").

(** Equality of digests as dictionary keys ([None] is a key like any other). *)
Definition digest_eqb (a b : option string) : bool :=
  match a, b with
  | Some x, Some y => x =? y
  | None, None => true
  | _, _ => false
  end.

(** [images.setdefault(digest, []).append(tag)] *)
Fixpoint setdefault_append (digest : option string) (tag : value)
    (images : dict (option string) (list value)) : dict (option string) (list value) :=
  match images with
  | [] => [(digest, [tag])]
  | (k, tags) :: rest =>
      if digest_eqb digest k then (k, tags ++ [tag]) :: rest
      else (k, tags) :: setdefault_append digest tag rest
  end.

(** The [for tag in tags] loop of [list_images]. *)
Fixpoint list_images_loop (name : string) (tags : list value)
    (images : dict (option string) (list value))
  : M (dict (option string) (list value)) :=
  match tags with
  | [] => ret images
  | tag :: rest =>
      digest <- get_manifests_list_digest name tag ;;
      list_images_loop name rest (setdefault_append digest tag images)
  end.

Definition list_images (name : string) : M (dict (option string) (list value)) :=
  tags <- list_tags name ;;
  items <- lift (iter tags) ;;
  list_images_loop name items [].

(** ** The command-line driver *)

(** [s.partition(sep)] for a separator of one character. *)
Fixpoint str_partition (s : string) (sep : ascii) : string * string * string :=
  match s with
  | EmptyString => ("", "", "")
  | String c s' =>
      if Ascii.eqb c sep then ("", String sep "", s')
      else let '(before, found, rest) := str_partition s' sep in
           (String c before, found, rest)
  end.

(** [sep in s] for a separator of one character. *)
Fixpoint contains (sep : ascii) (s : string) : bool :=
  match s with
  | EmptyString => false
  | String c s' => Ascii.eqb c sep || contains sep s'
  end.

(** What [argparse] hands over. *)
Record Args : Type := mkArgs {
  arg_name : string;
  arg_all : bool;
  arg_token : option string;
  arg_url : string
}.

(** Lines 125 to 129: the name and the tag or digest of [NAME[:TAG|@DIGEST]]. *)
Definition split_reference (arg : string) : string * string :=
  let '(name, _, tag) := str_partition arg "@" in
  let '(name, tag) :=
    if tag =? "" then
      let '(name, _, tag) := str_partition arg ":" in (name, tag)
    else (name, tag) in
  let tag := if tag =? "" then "latest" else tag in
  (name, tag).

(** Lines 130 and 131: [--all] drops the tag. *)
Definition disambiguator (a : Args) : option string :=
  if arg_all a then None else Some (snd (split_reference (arg_name a))).

(** Lines 132 and 133. *)
Definition library_prefix (name : string) : string :=
  if negb (contains "/" name) then "library/" +++ name else name.

Definition repository (a : Args) : string :=
  library_prefix (fst (split_reference (arg_name a))).

(** [images[digest]] *)
Definition images_getitem (images : dict (option string) (list value))
    (digest : option string) : result (list value) :=
  match dict_get digest_eqb digest images with
  | Some tags => Ok tags
  | None => Raise (KeyError digest)
  end.

(** [digest + ': ' + ' '.join(tags)] *)
Definition digest_line (digest : option string) (tags : list value) : result string :=
  match digest with
  | None => Raise TypeError
  | Some d =>
      match join " " tags with
      | Ok t => Ok (d +++ ": " +++ t)
      | Raise e => Raise e
      end
  end.

Fixpoint print_images (items : list (option string * list value)) : M unit :=
  match items with
  | [] => ret tt
  | (digest, tags) :: rest =>
      line <- lift (digest_line digest tags) ;;
      print line ;;
      print_images rest
  end.

(** The body of the [try] block.  [tag] is not assigned between its two
    tests, so both take the same branch. *)
Definition listing (name : string) (tag : option string) : M unit :=
  match tag with
  | Some t =>
      if negb (t =? "") then
        digest <- get_manifests_list_digest name (VStr t) ;;
        images <- list_images name ;;
        tags <- lift (images_getitem images digest) ;;
        line <- lift (join " " tags) ;;
        print line
      else
        images <- list_images name ;;
        print_images images
  | None =>
      images <- list_images name ;;
      print_images images
  end.

(** The loop over [data['errors']] of the handler. *)
Fixpoint print_errors (errors : list value) : M unit :=
  match errors with
  | [] => ret tt
  | error :: rest =>
      c <- lift (getitem error "code") ;;
      m <- lift (getitem error "message") ;;
      print (str c +++ ": " +++ str m) ;;
      d <- lift (getitem error "detail") ;;
      print ("details: " +++ repr d) ;;
      print_errors rest
  end.

(** The [except HTTPError as exception] block. *)
Definition report (exception : response) : M unit :=
  print (str_HTTPError exception) ;;
  let data := fp exception in
  (if negb (data =? "") then
     doc <- lift (match json_loads data with
                  | Some v => Ok v
                  | None => Raise ValueError
                  end) ;;
     errors <- lift (getitem doc "errors") ;;
     items <- lift (iter errors) ;;
     print_errors items
   else ret tt) ;;
  raise (SystemExit 1).

Definition initial_token (t : option string) : value :=
  match t with
  | Some s => VStr s
  | None => VNone
  end.

Definition start (a : Args) (s0 : server) : world :=
  {| self := {| url := arg_url a; token := initial_token (arg_token a) |};
     net := s0; sent := []; stdout := [] |}.

Definition main (a : Args) (s0 : server) : result unit * world :=
  try_except_HTTPError (listing (repository a) (disambiguator a)) report
    (start a s0).

(** The status the process ends with: 0 when the script runs to its end, the
    argument of [sys.exit], and 1 when an exception is not caught. *)
Definition exit_status (r : result unit) : Z :=
  match r with
  | Ok _ => 0
  | Raise (SystemExit n) => n
  | Raise _ => 1
  end.

(** ** Specification-side definitions *)

(** The digests of a list in the order of their first occurrence. *)
Fixpoint first_occurrences (l : list (option string)) : list (option string) :=
  match l with
  | [] => []
  | d :: l' => d :: filter (fun x => negb (digest_eqb x d)) (first_occurrences l')
  end.

(** The tags paired with digest [d], in the order of the pairs. *)
Definition tags_of (d : option string) (ps : list (value * option string))
  : list value :=
  map fst (filter (fun p => digest_eqb (snd p) d) ps).

Definition has_digest (d : option string) (l : list (option string)) : bool :=
  existsb (digest_eqb d) l.

(** The grouping [list_images] performs on tags already paired with their
    digests. *)
Definition group_step (images : dict (option string) (list value))
    (p : value * option string) : dict (option string) (list value) :=
  setdefault_append (snd p) (fst p) images.

Definition group_tags (ps : list (value * option string))
  : dict (option string) (list value) :=
  fold_left group_step ps [].

(** The digest lookups of the loop on their own: each tag with the digest
    the registry answered for it, in the order of the tags. *)
Fixpoint resolve_all (name : string) (tags : list value)
  : M (list (value * option string)) :=
  match tags with
  | [] => ret []
  | tag :: rest =>
      digest <- get_manifests_list_digest name tag ;;
      ps <- resolve_all name rest ;;
      ret ((tag, digest) :: ps)
  end.

(** Requests of the two kinds the script sends. *)
Definition registry_call (u name : string) (rq : request) : Prop :=
  exists rest, req_url rq = u +++ "/v2/" +++ name +++ "/" +++ rest.

Definition is_token_request (rq : request) : Prop :=
  exists realm service scope, rq = token_request realm service scope.

(** A computation all of whose runs are related by [R] to the world they
    start in. *)
Definition respects (R : world -> world -> Prop) {A} (c : M A) : Prop :=
  forall w, R w (snd (c w)).

(** Starting with the registry at [u], the run keeps it there and only adds
    requests that satisfy [P] to the log. *)
Definition sending (u : string) (P : request -> Prop) (w w' : world) : Prop :=
  url (self w) = u ->
  url (self w') = u /\ exists l, sent w' = sent w ++ l /\ Forall P l.

(** The run prints nothing. *)
Definition quiet (w w' : world) : Prop := stdout w' = stdout w.

(** The world after some more lines were printed. *)
Definition printed (w : world) (lines : list string) : world :=
  {| self := self w; net := net w; sent := sent w; stdout := stdout w ++ lines |}.

(** The run only adds requests to the log. *)
Definition extending (w w' : world) : Prop := exists l, sent w' = sent w ++ l.

(** The run only adds lines to standard output. *)
Definition printing (w w' : world) : Prop := exists l, stdout w' = stdout w ++ l.

(** What the driver does with the answer to its first call. *)
Definition after_first_call (a : Args) (resp : response) : M unit :=
  match disambiguator a with
  | Some (String _ _) =>
      images <- list_images (repository a) ;;
      tags <- lift (images_getitem images
                      (getheader (headers resp) "Docker-Content-Digest")) ;;
      line <- lift (join " " tags) ;;
      print line
  | _ =>
      doc <- lift (json_load resp) ;;
      tags <- lift (getitem doc "tags") ;;
      items <- lift (iter tags) ;;
      images <- list_images_loop (repository a) items [] ;;
      print_images images
  end.

(** The world after one more request was answered. *)
Definition after (w : world) (rq : request) (net' : server) : world :=
  {| self := self w; net := net'; sent := sent w ++ [rq]; stdout := stdout w |}.

(** The first call of [api_call] in a run of the driver, and the request it
    sends first. *)
Definition first_path (a : Args) : string :=
  match disambiguator a with
  | Some ((String _ _) as t) => "/v2/" +++ repository a +++ "/manifests/" +++ t
  | _ => "/v2/" +++ repository a +++ "/tags/list"
  end.

Definition first_method (a : Args) : string :=
  match disambiguator a with
  | Some (String _ _) => "HEAD"
  | _ => "GET"
  end.

Definition first_headers (a : Args) : option (dict string string) :=
  match disambiguator a with
  | Some (String _ _) => Some [("Accept", manifest_list_type)]
  | _ => None
  end.

Definition first_call (a : Args) : M response :=
  api_call (first_path a) (first_method a) (first_headers a).

Definition first_request (a : Args) : request :=
  {| req_url := arg_url a +++ first_path a;
     req_method := first_method a;
     req_headers :=
       match arg_token a with
       | Some ((String _ _) as t) =>
           dict_set String.eqb "Authorization" ("Bearer " +++ t)
             (or_empty (first_headers a))
       | _ => or_empty (first_headers a)
       end |}.

(** The lines the handler prints for one entry of the [errors] array. *)
Definition error_lines (entry : value * value * value) : list string :=
  let '(c, m, d) := entry in
  [str c +++ ": " +++ str m; "details: " +++ repr d].

Definition has_fields (error : value) (entry : value * value * value) : Prop :=
  let '(c, m, d) := entry in
  getitem error "code" = Ok c /\ getitem error "message" = Ok m /\
  getitem error "detail" = Ok d.

(** The first of the three challenge parameters a dictionary lacks. *)
Definition first_missing (found : dict string string) : option string :=
  match dict_get String.eqb "realm" found with
  | None => Some "realm"
  | Some _ =>
      match dict_get String.eqb "service" found with
      | None => Some "service"
      | Some _ =>
          match dict_get String.eqb "scope" found with
          | None => Some "scope"
          | Some _ => None
          end
      end
  end.

(** ** Strings: partition and membership *)

Lemma eqb_empty_false (s : string) : s <> "" -> (s =? "") = false.
Proof. intros H. apply String.eqb_neq. exact H. Qed.

Lemma str_partition_found (sep : ascii) (pre post : string) :
  contains sep pre = false ->
  str_partition (pre +++ String sep post) sep = (pre, String sep "", post).
Proof.
  induction pre as [|c pre IH]; simpl; intros H.
  - now rewrite Ascii.eqb_refl.
  - apply orb_false_iff in H as [Hc Hp].
    rewrite Hc, (IH Hp). reflexivity.
Qed.

Lemma str_partition_absent (sep : ascii) (s : string) :
  contains sep s = false -> str_partition s sep = (s, "", "").
Proof.
  induction s as [|c s IH]; simpl; intros H; [reflexivity|].
  apply orb_false_iff in H as [Hc Hs].
  rewrite Hc, (IH Hs). reflexivity.
Qed.

Lemma split_reference_at (pre dig : string) :
  contains "@" pre = false -> dig <> "" ->
  split_reference (pre +++ "@" +++ dig) = (pre, dig).
Proof.
  intros Hpre Hdig. unfold split_reference.
  change ("@" +++ dig) with (String "@" dig).
  rewrite (str_partition_found _ _ _ Hpre).
  now rewrite !(eqb_empty_false _ Hdig).
Qed.

(** C6: a reference [pre@dig] with a non-empty [dig] (and no [@] in [pre],
    so that [dig] is everything after the first [@]) is split into the name
    [pre] and the disambiguator [dig], whatever colons [pre] or [dig] hold;
    without [--all] that digest is the disambiguator the driver uses. *)
Theorem digest_takes_precedence (a : Args) (pre dig : string) :
  arg_name a = pre +++ "@" +++ dig ->
  contains "@" pre = false ->
  dig <> "" ->
  split_reference (arg_name a) = (pre, dig) /\
  (arg_all a = false -> disambiguator a = Some dig).
Proof.
  intros Hname Hpre Hdig.
  assert (Hsplit : split_reference (arg_name a) = (pre, dig))
    by (rewrite Hname; now apply split_reference_at).
  split; [exact Hsplit|].
  intros Hall. unfold disambiguator. now rewrite Hall, Hsplit.
Qed.

(** C7: a reference with neither [@] nor [:] is a name whose disambiguator
    is the tag [latest]. *)
Theorem default_tag_is_latest (arg : string) :
  contains "@" arg = false ->
  contains ":" arg = false ->
  split_reference arg = (arg, "latest").
Proof.
  intros Hat Hcolon. unfold split_reference.
  rewrite (str_partition_absent _ _ Hat). simpl.
  now rewrite (str_partition_absent _ _ Hcolon).
Qed.

(** ** Grouping by digest *)

Lemma digest_eqb_eq (a b : option string) : digest_eqb a b = true <-> a = b.
Proof.
  destruct a as [x|], b as [y|]; simpl; split; intros H;
    try discriminate; try reflexivity.
  - apply String.eqb_eq in H. now subst.
  - injection H as ->. apply String.eqb_refl.
Qed.

Lemma digest_eqb_refl (a : option string) : digest_eqb a a = true.
Proof. now apply digest_eqb_eq. Qed.

Lemma digest_eqb_sym (a b : option string) : digest_eqb a b = digest_eqb b a.
Proof.
  destruct (digest_eqb a b) eqn:E, (digest_eqb b a) eqn:F; try reflexivity.
  - apply digest_eqb_eq in E. subst. now rewrite digest_eqb_refl in F.
  - apply digest_eqb_eq in F. subst. now rewrite digest_eqb_refl in E.
Qed.

Lemma keys_setdefault_append d tag images :
  keys (setdefault_append d tag images) =
  if has_digest d (keys images) then keys images else keys images ++ [d].
Proof.
  induction images as [|[k tags] rest IH]; simpl; [reflexivity|].
  destruct (digest_eqb d k); simpl; [reflexivity|].
  unfold keys in *. rewrite IH.
  now destruct (has_digest d (map fst rest)).
Qed.

Lemma get_setdefault_append d d' tag images :
  dict_get digest_eqb d' (setdefault_append d tag images) =
  if digest_eqb d' d then
    Some (match dict_get digest_eqb d images with
          | Some tags => tags ++ [tag]
          | None => [tag]
          end)
  else dict_get digest_eqb d' images.
Proof.
  induction images as [|[k tags] rest IH]; simpl.
  - now destruct (digest_eqb d' d).
  - destruct (digest_eqb d k) eqn:Edk; simpl.
    + apply digest_eqb_eq in Edk. subst k.
      now destruct (digest_eqb d' d).
    + rewrite IH. destruct (digest_eqb d' d) eqn:Ed'd.
      * apply digest_eqb_eq in Ed'd. subst d'. now rewrite Edk.
      * reflexivity.
Qed.

Lemma has_digest_app d l l' :
  has_digest d (l ++ l') = has_digest d l || has_digest d l'.
Proof. apply existsb_app. Qed.

Lemma has_digest_filter d x l :
  digest_eqb d x = false ->
  has_digest d (filter (fun y => negb (digest_eqb y x)) l) = has_digest d l.
Proof.
  intros Hdx. induction l as [|y l IH]; simpl; [reflexivity|].
  destruct (digest_eqb y x) eqn:Eyx; simpl.
  - apply digest_eqb_eq in Eyx. subst y. now rewrite Hdx.
  - now rewrite IH.
Qed.

Lemma has_digest_first_occurrences d l :
  has_digest d (first_occurrences l) = has_digest d l.
Proof.
  induction l as [|x l IH]; simpl; [reflexivity|].
  destruct (digest_eqb d x) eqn:Edx; simpl; [reflexivity|].
  now rewrite has_digest_filter.
Qed.

Lemma first_occurrences_snoc l d :
  first_occurrences (l ++ [d]) =
  if has_digest d l then first_occurrences l else first_occurrences l ++ [d].
Proof.
  induction l as [|x l IH]; simpl; [reflexivity|].
  rewrite IH. destruct (digest_eqb d x) eqn:Edx; simpl.
  - destruct (has_digest d l); [reflexivity|].
    rewrite filter_app. simpl. rewrite Edx. simpl. now rewrite app_nil_r.
  - destruct (has_digest d l); [reflexivity|].
    rewrite filter_app. simpl. now rewrite Edx.
Qed.

Lemma tags_of_snoc d ps p :
  tags_of d (ps ++ [p]) =
  tags_of d ps ++ (if digest_eqb (snd p) d then [fst p] else []).
Proof.
  unfold tags_of. rewrite filter_app, map_app. simpl.
  now destruct (digest_eqb (snd p) d).
Qed.

Lemma group_tags_snoc ps p :
  group_tags (ps ++ [p]) = setdefault_append (snd p) (fst p) (group_tags ps).
Proof. unfold group_tags. now rewrite fold_left_app. Qed.

Lemma keys_group_tags ps :
  keys (group_tags ps) = first_occurrences (map snd ps).
Proof.
  induction ps as [|p ps IH] using rev_ind; [reflexivity|].
  rewrite group_tags_snoc, keys_setdefault_append, map_app, IH. simpl.
  now rewrite first_occurrences_snoc, has_digest_first_occurrences.
Qed.

Lemma tags_of_absent d ps :
  has_digest d (map snd ps) = false -> tags_of d ps = [].
Proof.
  unfold tags_of. induction ps as [|p ps IH]; simpl; intros H; [reflexivity|].
  apply orb_false_iff in H as [Hd Hps].
  rewrite digest_eqb_sym, Hd. now apply IH.
Qed.

Lemma get_group_tags d ps :
  dict_get digest_eqb d (group_tags ps) =
  if has_digest d (map snd ps) then Some (tags_of d ps) else None.
Proof.
  induction ps as [|p ps IH] using rev_ind; [reflexivity|].
  rewrite group_tags_snoc, get_setdefault_append, map_app, has_digest_app,
    tags_of_snoc.
  simpl. rewrite orb_false_r, (digest_eqb_sym (snd p) d).
  destruct (digest_eqb d (snd p)) eqn:E.
  - apply digest_eqb_eq in E. subst d. rewrite IH, orb_true_r.
    destruct (has_digest (snd p) (map snd ps)) eqn:Hin; [reflexivity|].
    now rewrite (tags_of_absent _ _ Hin).
  - now rewrite IH, orb_false_r, app_nil_r.
Qed.

(** ** Running the monad *)

Lemma bind_Ok {A B} (c : M A) (k : A -> M B) w a w' :
  c w = (Ok a, w') -> bind c k w = k a w'.
Proof. intros H. unfold bind. now rewrite H. Qed.

Lemma bind_Raise {A B} (c : M A) (k : A -> M B) w e w' :
  c w = (Raise e, w') -> bind c k w = (Raise e, w').
Proof. intros H. unfold bind. now rewrite H. Qed.

Lemma bind_assoc {A B C} (c : M A) (k : A -> M B) (h : B -> M C) w :
  bind (bind c k) h w = bind c (fun a => bind (k a) h) w.
Proof. unfold bind. destruct (c w) as [[a|e] w']; reflexivity. Qed.

Lemma bind_ext {A B} (c : M A) (k k' : A -> M B) w :
  (forall a w', k a w' = k' a w') -> bind c k w = bind c k' w.
Proof. intros H. unfold bind. destruct (c w) as [[a|e] w']; [apply H|reflexivity]. Qed.

Ltac monad_norm :=
  repeat (rewrite bind_assoc || (apply bind_ext; intros)); try reflexivity.

Lemma bind_get_self {B} (k : Registry -> M B) w : bind get_self k w = k (self w) w.
Proof. reflexivity. Qed.

Lemma bind_lift_Ok {A B} (a : A) (k : A -> M B) w : bind (lift (Ok a)) k w = k a w.
Proof. reflexivity. Qed.

Lemma bind_lift_Raise {A B} e (k : A -> M B) w :
  bind (lift (Raise e)) k w = (Raise e, w).
Proof. reflexivity. Qed.

(** The loop of [list_images] is the digest lookups followed by the grouping
    of their results. *)
Lemma list_images_loop_resolve name tags images w :
  list_images_loop name tags images w =
  (ps <- resolve_all name tags ;; ret (fold_left group_step ps images)) w.
Proof.
  revert images w. induction tags as [|tag rest IH]; intros images w; simpl.
  - reflexivity.
  - rewrite bind_assoc.
    destruct (get_manifests_list_digest name tag w) as [[digest|e] w1] eqn:E.
    + rewrite !(bind_Ok _ _ _ _ _ E), IH, bind_assoc.
      destruct (resolve_all name rest w1) as [[ps|e] w2] eqn:F.
      * now rewrite !(bind_Ok _ _ _ _ _ F).
      * now rewrite !(bind_Raise _ _ _ _ _ F).
    + now rewrite !(bind_Raise _ _ _ _ _ E).
Qed.

Lemma resolve_all_tags name tags w :
  match resolve_all name tags w with
  | (Ok ps, _) => map fst ps = tags
  | (Raise _, _) => True
  end.
Proof.
  revert w. induction tags as [|tag rest IH]; intros w; simpl; [reflexivity|].
  unfold bind.
  destruct (get_manifests_list_digest name tag w) as [[digest|e] w1]; [|exact I].
  specialize (IH w1).
  destruct (resolve_all name rest w1) as [[ps|e] w2]; [|exact I].
  simpl. now rewrite IH.
Qed.

(** C4: [list_images] lists the tags, looks up the digest of each in that
    order and returns the grouping of the resulting (tag, digest) pairs; the
    keys of a grouping are the digests in the order of their first
    occurrence, and the value of a digest is the sequence of the tags paired
    with it, in the order of the tag list.  In particular, when [list_tags]
    answers the list [l] and [list_images] returns the map [images], the
    tags were looked up in the order of [l] itself, first to last, and
    [images] has one key for each digest answered, in the order in which the
    digests first came up along [l], each with its tags in the order of
    [l]. *)
Theorem list_images_groups_in_order :
  (forall name w,
     list_images name w =
     (tags <- list_tags name ;;
      items <- lift (iter tags) ;;
      ps <- resolve_all name items ;;
      ret (group_tags ps)) w) /\
  (forall name items w,
     match resolve_all name items w with
     | (Ok ps, _) => map fst ps = items
     | (Raise _, _) => True
     end) /\
  (forall ps, keys (group_tags ps) = first_occurrences (map snd ps)) /\
  (forall ps d,
     dict_get digest_eqb d (group_tags ps) =
     if has_digest d (map snd ps) then Some (tags_of d ps) else None) /\
  (forall name w l w1 images w',
     list_tags name w = (Ok (VList l), w1) ->
     list_images name w = (Ok images, w') ->
     exists ps,
       resolve_all name l w1 = (Ok ps, w') /\
       map fst ps = l /\
       images = group_tags ps /\
       keys images = first_occurrences (map snd ps) /\
       forall d,
         dict_get digest_eqb d images =
         if has_digest d (map snd ps) then Some (tags_of d ps) else None).
Proof.
  split; [|split; [|split; [|split]]].
  - intros name w. unfold list_images.
    destruct (list_tags name w) as [[tags|e] w1] eqn:E.
    + rewrite !(bind_Ok _ _ _ _ _ E).
      destruct (iter tags) as [items|e]; [|reflexivity].
      rewrite !bind_lift_Ok. apply list_images_loop_resolve.
    + now rewrite !(bind_Raise _ _ _ _ _ E).
  - intros name items w. apply resolve_all_tags.
  - apply keys_group_tags.
  - intros ps d. apply get_group_tags.
  - intros name w l w1 images w' Htags. unfold list_images.
    rewrite (bind_Ok _ _ _ _ _ Htags). cbn [iter].
    rewrite bind_lift_Ok, list_images_loop_resolve.
    pose proof (resolve_all_tags name l w1) as Hfst.
    destruct (resolve_all name l w1) as [[ps|e] w2] eqn:Hres.
    + rewrite (bind_Ok _ _ _ _ _ Hres). unfold ret. intros Himages.
      injection Himages as <- <-. exists ps.
      split; [reflexivity|]. split; [exact Hfst|]. split; [reflexivity|].
      split; [apply keys_group_tags|intros d; apply get_group_tags].
    + rewrite (bind_Raise _ _ _ _ _ Hres). discriminate.
Qed.

(** ** One call of [api_call] *)

Lemma urlopen_run rq w r net' :
  serve (net w) rq = (r, net') ->
  urlopen rq w = (outcome rq r, after w rq net').
Proof. intros H. unfold urlopen. now rewrite H. Qed.

Lemma outcome_error rq r :
  ((200 <=? status r) && (status r <? 300))%Z = false ->
  outcome rq r = Raise (HTTPError (received rq r)).
Proof. intros H. unfold outcome. now rewrite H. Qed.

Lemma outcome_401 rq r :
  status r = 401%Z -> outcome rq r = Raise (HTTPError (received rq r)).
Proof. intros H. apply outcome_error. now rewrite H. Qed.

(** The first request of a call and what follows its answer. *)
Lemma api_call_run path method hs w hs' r net' :
  with_token (token (self w)) (or_empty hs) = Ok hs' ->
  serve (net w)
    {| req_url := url (self w) +++ path; req_method := method; req_headers := hs' |}
    = (r, net') ->
  api_call path method hs w =
  match outcome {| req_url := url (self w) +++ path; req_method := method;
                   req_headers := hs' |} r with
  | Raise (HTTPError exception) =>
      refresh_and_retry path method hs' exception
        (after w {| req_url := url (self w) +++ path; req_method := method;
                    req_headers := hs' |} net')
  | other =>
      (other, after w {| req_url := url (self w) +++ path; req_method := method;
                         req_headers := hs' |} net')
  end.
Proof.
  intros Hhs Hserve. unfold api_call, get_self.
  unfold bind at 1. unfold bind at 1. unfold lift at 1. rewrite Hhs.
  unfold try_except_HTTPError. rewrite (urlopen_run _ _ _ _ Hserve).
  destruct (outcome _ r) as [resp|[]]; reflexivity.
Qed.

Lemma api_call_401 path method hs w hs' r net' :
  with_token (token (self w)) (or_empty hs) = Ok hs' ->
  serve (net w)
    {| req_url := url (self w) +++ path; req_method := method; req_headers := hs' |}
    = (r, net') ->
  status r = 401%Z ->
  api_call path method hs w =
  refresh_and_retry path method hs'
    (received {| req_url := url (self w) +++ path; req_method := method;
                 req_headers := hs' |} r)
    (after w {| req_url := url (self w) +++ path; req_method := method;
                req_headers := hs' |} net').
Proof.
  intros Hhs Hserve H401.
  rewrite (api_call_run _ _ _ _ _ _ _ Hhs Hserve).
  now rewrite (outcome_401 _ _ H401).
Qed.

(** C1, as the code has it: when the 401 response carries a
    [WWW-Authenticate] header in which [Bearer] followed by white space
    occurs nowhere, [api_call] raises the [HTTPError] of that response again;
    the registry object keeps its token and the request of the call is the
    only one sent (no token is asked for). *)
Theorem reraise_without_bearer path method hs w hs' r net' auth :
  with_token (token (self w)) (or_empty hs) = Ok hs' ->
  serve (net w)
    {| req_url := url (self w) +++ path; req_method := method; req_headers := hs' |}
    = (r, net') ->
  status r = 401%Z ->
  getheader (reply_headers r) "WWW-Authenticate" = Some auth ->
  search_bearer auth = None ->
  api_call path method hs w =
  (Raise (HTTPError
            (received {| req_url := url (self w) +++ path; req_method := method;
                         req_headers := hs' |} r)),
   after w {| req_url := url (self w) +++ path; req_method := method;
              req_headers := hs' |} net').
Proof.
  intros Hhs Hserve H401 Hauth Hsearch.
  rewrite (api_call_401 _ _ _ _ _ _ _ Hhs Hserve H401).
  unfold refresh_and_retry. cbn [code headers received].
  rewrite H401, Hauth, Hsearch. reflexivity.
Qed.

(** ** Token refresh *)

Ltac run_monad :=
  unfold bind, lift, ret, raise, get_self, set_token, print, urlopen,
    try_except_HTTPError.

Lemma get_token_footprint realm service scope w :
  url (self (snd (get_token realm service scope w))) = url (self w) /\
  stdout (snd (get_token realm service scope w)) = stdout w /\
  sent (snd (get_token realm service scope w)) =
    sent w ++ [token_request realm service scope].
Proof.
  unfold get_token. run_monad.
  destruct (serve (net w) (token_request realm service scope)) as [r1 net2].
  destruct (outcome _ r1) as [resp|e]; simpl; [|now repeat split].
  destruct (negb (code resp =? 200)%Z); simpl; [now repeat split|].
  destruct (json_load resp) as [doc|e]; simpl; [|now repeat split].
  destruct (getitem doc "token") as [tok|e]; simpl; now repeat split.
Qed.

Lemma get_token_Ok realm service scope w r1 net2 doc tok :
  serve (net w) (token_request realm service scope) = (r1, net2) ->
  status r1 = 200%Z ->
  json_loads (payload r1) = Some doc ->
  getitem doc "token" = Ok tok ->
  get_token realm service scope w =
  (Ok tt,
   {| self := {| url := url (self w); token := tok |};
      net := net2;
      sent := sent w ++ [token_request realm service scope];
      stdout := stdout w |}).
Proof.
  intros Hserve H200 Hjson Htok.
  destruct r1 as [st rs hd pl]. cbn [status payload] in H200, Hjson. subst st.
  unfold get_token. run_monad. rewrite Hserve.
  unfold outcome, json_load, received.
  cbn [status reason reply_headers payload code fp Z.leb Z.ltb Z.eqb Z.compare
       Pos.compare Pos.compare_cont Pos.eqb andb negb].
  rewrite Hjson, Htok. reflexivity.
Qed.

Lemma subscript_Some found k v :
  dict_get String.eqb k found = Some v -> subscript found k = Ok v.
Proof. intros H. unfold subscript. now rewrite H. Qed.

(** With a challenge that names the three parameters, the handler is the
    token request followed by one more [urlopen]. *)
Lemma refresh_and_retry_challenge path method hs' exception w auth rest
    realm service scope :
  code exception = 401%Z ->
  getheader (headers exception) "WWW-Authenticate" = Some auth ->
  search_bearer auth = Some rest ->
  dict_get String.eqb "realm" (challenge_dict (findall_pairs rest)) = Some realm ->
  dict_get String.eqb "service" (challenge_dict (findall_pairs rest)) = Some service ->
  dict_get String.eqb "scope" (challenge_dict (findall_pairs rest)) = Some scope ->
  refresh_and_retry path method hs' exception w =
  (get_token realm service scope ;;
   me <- get_self ;;
   hs <- lift (authorize (token me) hs') ;;
   urlopen {| req_url := url me +++ path; req_method := method; req_headers := hs |}) w.
Proof.
  intros H401 Hauth Hsearch Hrealm Hservice Hscope.
  unfold refresh_and_retry. rewrite H401, Hauth, Hsearch.
  cbn [Z.eqb Pos.eqb negb].
  rewrite (subscript_Some _ _ _ Hrealm), bind_lift_Ok.
  rewrite (subscript_Some _ _ _ Hservice), bind_lift_Ok.
  rewrite (subscript_Some _ _ _ Hscope), bind_lift_Ok.
  reflexivity.
Qed.

(** [d[k] = v] on a dictionary with [str] keys: afterwards [k] holds [v],
    whatever it held before, every other key holds what it held, and the keys
    are the ones there were, [k] added last when it is new. *)
Lemma dict_get_set_same {V : Type} (k : string) (v : V) (d : dict string V) :
  dict_get String.eqb k (dict_set String.eqb k v d) = Some v.
Proof.
  induction d as [|[k' v'] d IH]; simpl.
  - now rewrite String.eqb_refl.
  - destruct (k =? k') eqn:E; simpl; rewrite E; [reflexivity|exact IH].
Qed.

Lemma dict_get_set_other {V : Type} (k k0 : string) (v : V) (d : dict string V) :
  k0 <> k ->
  dict_get String.eqb k0 (dict_set String.eqb k v d) = dict_get String.eqb k0 d.
Proof.
  intros Hne. apply String.eqb_neq in Hne.
  induction d as [|[k' v'] d IH]; simpl.
  - now rewrite Hne.
  - destruct (k =? k') eqn:E; simpl.
    + apply String.eqb_eq in E. subst k'. now rewrite Hne.
    + now rewrite IH.
Qed.

Lemma keys_dict_set {V : Type} (k : string) (v : V) (d : dict string V) :
  keys (dict_set String.eqb k v d) =
  if existsb (String.eqb k) (keys d) then keys d else keys d ++ [k].
Proof.
  unfold keys. induction d as [|[k' v'] d IH]; simpl; [reflexivity|].
  destruct (k =? k') eqn:E; simpl; [reflexivity|].
  rewrite IH. now destruct (existsb (String.eqb k) (map fst d)).
Qed.

Lemma authorize_Ok tok hs hs2 :
  authorize tok hs = Ok hs2 ->
  exists t, tok = VStr t /\
            hs2 = dict_set String.eqb "Authorization" ("Bearer " +++ t) hs.
Proof.
  unfold authorize, str_add. destruct tok; try discriminate.
  intros H. injection H as <-. now exists s.
Qed.

(** C3: a 401 response whose challenge names [realm], [service] and [scope]
    makes [api_call] send the token request for exactly these three
    parameters right after the original request, and after it at most one
    more request: the original one again, with [Authorization: Bearer] and
    the token now held.  When the token endpoint answers 200 with a JSON
    document whose [token] is the string [t], that retry is sent, with
    [Bearer t], and its outcome is the outcome of the call whatever its
    status (a second 401 is raised, not answered by a second refresh).  The
    headers of the retry are those of the original request with
    [Authorization] set anew: it holds [Bearer t] also when the original
    request carried another token, every other header is the one the
    original request carried, and no header is added besides. *)
Theorem refresh_and_retry_once path method hs w hs' r net1 auth rest
    realm service scope :
  with_token (token (self w)) (or_empty hs) = Ok hs' ->
  serve (net w)
    {| req_url := url (self w) +++ path; req_method := method; req_headers := hs' |}
    = (r, net1) ->
  status r = 401%Z ->
  getheader (reply_headers r) "WWW-Authenticate" = Some auth ->
  search_bearer auth = Some rest ->
  dict_get String.eqb "realm" (challenge_dict (findall_pairs rest)) = Some realm ->
  dict_get String.eqb "service" (challenge_dict (findall_pairs rest)) = Some service ->
  dict_get String.eqb "scope" (challenge_dict (findall_pairs rest)) = Some scope ->
  (exists tail,
     sent (snd (api_call path method hs w)) =
       sent w ++
       {| req_url := url (self w) +++ path; req_method := method;
          req_headers := hs' |}
       :: token_request realm service scope :: tail /\
     (tail = [] \/
      exists t,
        token (self (snd (api_call path method hs w))) = VStr t /\
        tail = [{| req_url := url (self w) +++ path; req_method := method;
                   req_headers :=
                     dict_set String.eqb "Authorization" ("Bearer " +++ t) hs' |}]))
  /\
  (forall r1 net2 doc t r2 net3,
     serve net1 (token_request realm service scope) = (r1, net2) ->
     status r1 = 200%Z ->
     json_loads (payload r1) = Some doc ->
     getitem doc "token" = Ok (VStr t) ->
     serve net2
       {| req_url := url (self w) +++ path; req_method := method;
          req_headers := dict_set String.eqb "Authorization" ("Bearer " +++ t) hs' |}
       = (r2, net3) ->
     api_call path method hs w =
     (outcome
        {| req_url := url (self w) +++ path; req_method := method;
           req_headers := dict_set String.eqb "Authorization" ("Bearer " +++ t) hs' |}
        r2,
      {| self := {| url := url (self w); token := VStr t |};
         net := net3;
         sent := sent w ++
                 [{| req_url := url (self w) +++ path; req_method := method;
                     req_headers := hs' |};
                  token_request realm service scope;
                  {| req_url := url (self w) +++ path; req_method := method;
                     req_headers :=
                       dict_set String.eqb "Authorization" ("Bearer " +++ t) hs' |}];
         stdout := stdout w |}))
  /\
  (forall t,
     dict_get String.eqb "Authorization"
       (dict_set String.eqb "Authorization" ("Bearer " +++ t) hs')
       = Some ("Bearer " +++ t) /\
     (forall k, k <> "Authorization" ->
        dict_get String.eqb k
          (dict_set String.eqb "Authorization" ("Bearer " +++ t) hs')
          = dict_get String.eqb k hs') /\
     keys (dict_set String.eqb "Authorization" ("Bearer " +++ t) hs')
       = if existsb (String.eqb "Authorization") (keys hs') then keys hs'
         else keys hs' ++ ["Authorization"]).
Proof.
  intros Hhs Hserve H401 Hauth Hsearch Hrealm Hservice Hscope.
  rewrite (api_call_401 _ _ _ _ _ _ _ Hhs Hserve H401).
  set (rq0 := {| req_url := url (self w) +++ path; req_method := method;
                 req_headers := hs' |}).
  rewrite (refresh_and_retry_challenge path method hs' (received rq0 r)
             (after w rq0 net1) auth rest realm service scope H401 Hauth Hsearch
             Hrealm Hservice Hscope).
  split; [|split].
  - destruct (get_token_footprint realm service scope (after w rq0 net1))
      as (Hurl & _ & Hsent).
    destruct (get_token realm service scope (after w rq0 net1))
      as [[[]|e] w1] eqn:Htoken; cbn [snd] in Hurl, Hsent.
    + rewrite (bind_Ok _ _ _ _ _ Htoken). rewrite bind_get_self.
      destruct (authorize (token (self w1)) hs') as [hs2|e] eqn:Hauthz.
      * rewrite bind_lift_Ok. unfold urlopen.
        destruct (serve (net w1) _) as [r2 net3]. cbn [snd sent self].
        destruct (authorize_Ok _ _ _ Hauthz) as (t & Htok & ->).
        eexists. split.
        -- rewrite Hsent. cbn [after sent]. rewrite <- !app_assoc. reflexivity.
        -- right. exists t. split; [exact Htok|]. now rewrite Hurl.
      * rewrite bind_lift_Raise. cbn [snd]. exists []. split; [|now left].
        rewrite Hsent. cbn [after sent]. now rewrite <- app_assoc.
    + rewrite (bind_Raise _ _ _ _ _ Htoken). cbn [snd]. exists [].
      split; [|now left].
      rewrite Hsent. cbn [after sent]. now rewrite <- app_assoc.
  - intros r1 net2 doc t r2 net3 Hserve1 H200 Hjson Htok Hserve2.
    rewrite (bind_Ok _ _ _ _ _
               (get_token_Ok realm service scope (after w rq0 net1) r1 net2 doc
                  (VStr t) Hserve1 H200 Hjson Htok)).
    rewrite bind_get_self. cbn [self token url after].
    unfold authorize, str_add. rewrite bind_lift_Ok.
    unfold urlopen. cbn [net self sent stdout after]. rewrite Hserve2.
    rewrite <- !app_assoc. reflexivity.
  - intros t. split; [apply dict_get_set_same|].
    split; [intros k Hk; now apply dict_get_set_other|apply keys_dict_set].
Qed.

(** ** What a run leaves unchanged *)

Section Frame.

Variable R : world -> world -> Prop.
Hypothesis R_refl : forall w, R w w.
Hypothesis R_trans : forall a b c, R a b -> R b c -> R a c.
Hypothesis R_set_token : forall v, respects R (set_token v).
Hypothesis R_token_request :
  forall realm service scope, respects R (urlopen (token_request realm service scope)).

Lemma R_bind {A B} (c : M A) (k : A -> M B) w :
  R w (snd (c w)) ->
  (forall a w', c w = (Ok a, w') -> R w' (snd (k a w'))) ->
  R w (snd (bind c k w)).
Proof.
  intros Hc Hk. unfold bind.
  destruct (c w) as [[a|e] w'] eqn:E; cbn [snd] in *.
  - eapply R_trans; [exact Hc|]. now apply Hk.
  - exact Hc.
Qed.

Lemma R_try {A} (c : M A) (h : response -> M A) w :
  R w (snd (c w)) ->
  (forall e w', R w' (snd (h e w'))) ->
  R w (snd (try_except_HTTPError c h w)).
Proof.
  intros Hc Hh. unfold try_except_HTTPError.
  destruct (c w) as [[a|[e| | | |]] w'] eqn:E; cbn [snd] in *; try exact Hc.
  eapply R_trans; [exact Hc|]. apply Hh.
Qed.

Lemma R_bind_lift {A B} (r : result A) (k : A -> M B) w :
  (forall a, r = Ok a -> R w (snd (k a w))) ->
  R w (snd (bind (lift r) k w)).
Proof.
  intros Hk. destruct r as [a|e]; unfold bind, lift; cbn [snd].
  - now apply Hk.
  - apply R_refl.
Qed.

Lemma respects_lift {A} (r : result A) : respects R (lift r).
Proof. intros w. apply R_refl. Qed.

Lemma respects_get_token realm service scope :
  respects R (get_token realm service scope).
Proof.
  intros w. unfold get_token.
  apply R_bind; [apply R_token_request|].
  intros resp w1 _.
  destruct (negb (code resp =? 200)%Z); [apply R_refl|].
  apply R_bind_lift. intros doc _.
  apply R_bind_lift. intros tok _.
  apply R_set_token.
Qed.

Section Path.

Variable path : string.
Hypothesis R_request :
  forall method hs w,
    R w (snd (urlopen {| req_url := url (self w) +++ path; req_method := method;
                         req_headers := hs |} w)).

Lemma respects_refresh_and_retry method hs exception :
  respects R (refresh_and_retry path method hs exception).
Proof.
  intros w. unfold refresh_and_retry.
  destruct (negb (code exception =? 401)%Z); [apply R_refl|].
  destruct (getheader _ _) as [auth|]; [|apply R_refl].
  destruct (search_bearer auth) as [rest|]; [|apply R_refl].
  apply R_bind_lift. intros realm _.
  apply R_bind_lift. intros service _.
  apply R_bind_lift. intros scope _.
  apply R_bind; [apply respects_get_token|]. intros [] w4 _.
  rewrite bind_get_self.
  apply R_bind_lift. intros hs2 _.
  apply R_request.
Qed.

Lemma respects_api_call method hs : respects R (api_call path method hs).
Proof.
  intros w. unfold api_call. rewrite bind_get_self.
  apply R_bind_lift. intros hs' _.
  apply R_try; [apply R_request|].
  intros e w2. apply respects_refresh_and_retry.
Qed.

End Path.

Section Repository.

Variable name : string.
Hypothesis R_registry :
  forall suffix method hs w,
    R w (snd (urlopen {| req_url := url (self w) +++ "/v2/" +++ name +++ "/" +++ suffix;
                         req_method := method; req_headers := hs |} w)).

Lemma respects_list_tags : respects R (list_tags name).
Proof.
  intros w. unfold list_tags.
  apply R_bind.
  - apply respects_api_call. intros method hs w'.
    apply (R_registry "tags/list").
  - intros resp w1 _.
    apply R_bind_lift. intros doc _.
    apply respects_lift.
Qed.

Lemma respects_get_manifests_list_digest ref :
  respects R (get_manifests_list_digest name ref).
Proof.
  intros w. unfold get_manifests_list_digest.
  apply R_bind.
  - apply respects_api_call. intros method hs w'.
    apply (R_registry ("manifests/" +++ str ref)).
  - intros resp w1 _. apply R_refl.
Qed.

Lemma respects_list_images_loop tags images :
  respects R (list_images_loop name tags images).
Proof.
  revert images. induction tags as [|tag rest IH]; intros images w; simpl.
  - apply R_refl.
  - apply R_bind; [apply respects_get_manifests_list_digest|].
    intros digest w1 _. apply IH.
Qed.

Lemma respects_list_images : respects R (list_images name).
Proof.
  intros w. unfold list_images.
  apply R_bind; [apply respects_list_tags|]. intros tags w1 _.
  apply R_bind_lift. intros items _.
  apply respects_list_images_loop.
Qed.

Hypothesis R_print : forall line, respects R (print line).

Lemma respects_print_images items : respects R (print_images items).
Proof.
  induction items as [|[digest tags] rest IH]; intros w; simpl.
  - apply R_refl.
  - apply R_bind_lift. intros line _.
    apply R_bind; [apply R_print|]. intros [] w2 _. apply IH.
Qed.

Lemma respects_listing tag : respects R (listing name tag).
Proof.
  assert (Hall : respects R (images <- list_images name ;; print_images images)).
  { intros w. apply R_bind; [apply respects_list_images|].
    intros images w1 _. apply respects_print_images. }
  intros w. unfold listing.
  destruct tag as [t|]; [|apply Hall].
  destruct (negb (t =? "")); [|apply Hall].
  apply R_bind; [apply respects_get_manifests_list_digest|]. intros digest w1 _.
  apply R_bind; [apply respects_list_images|]. intros images w2 _.
  apply R_bind_lift. intros tags _.
  apply R_bind_lift. intros line _.
  apply R_print.
Qed.

Lemma respects_print_errors errors : respects R (print_errors errors).
Proof.
  induction errors as [|error rest IH]; intros w; simpl.
  - apply R_refl.
  - apply R_bind_lift. intros c _.
    apply R_bind_lift. intros m _.
    apply R_bind; [apply R_print|]. intros [] w3 _.
    apply R_bind_lift. intros d _.
    apply R_bind; [apply R_print|]. intros [] w5 _. apply IH.
Qed.

Lemma respects_report exception : respects R (report exception).
Proof.
  intros w. unfold report.
  apply R_bind; [apply R_print|]. intros [] w1 _.
  apply R_bind; [|intros; apply R_refl].
  destruct (negb (fp exception =? "")); [|apply R_refl].
  apply R_bind_lift. intros doc _.
  apply R_bind_lift. intros errors _.
  apply R_bind_lift. intros items _.
  apply respects_print_errors.
Qed.

Lemma respects_driver tag :
  respects R (try_except_HTTPError (listing name tag) report).
Proof.
  intros w. apply R_try; [apply respects_listing|].
  intros e w'. apply respects_report.
Qed.

End Repository.

End Frame.

(** ** Three instances: nothing printed, requests only added, lines only added *)

Lemma quiet_refl w : quiet w w.
Proof. reflexivity. Qed.

Lemma quiet_trans a b c : quiet a b -> quiet b c -> quiet a c.
Proof. unfold quiet. intros H1 H2. now rewrite H2. Qed.

Lemma quiet_set_token v : respects quiet (set_token v).
Proof. intros w. reflexivity. Qed.

Lemma quiet_urlopen rq : respects quiet (urlopen rq).
Proof. intros w. unfold quiet, urlopen. now destruct (serve (net w) rq). Qed.

Lemma list_images_quiet name : respects quiet (list_images name).
Proof.
  apply (respects_list_images quiet quiet_refl quiet_trans quiet_set_token
           (fun _ _ _ => quiet_urlopen _)).
  intros suffix method hs w. apply quiet_urlopen.
Qed.

Lemma get_manifests_list_digest_quiet name ref :
  respects quiet (get_manifests_list_digest name ref).
Proof.
  apply (respects_get_manifests_list_digest quiet quiet_refl quiet_trans
           quiet_set_token (fun _ _ _ => quiet_urlopen _)).
  intros suffix method hs w. apply quiet_urlopen.
Qed.

Lemma extending_refl w : extending w w.
Proof. exists []. now rewrite app_nil_r. Qed.

Lemma extending_trans a b c : extending a b -> extending b c -> extending a c.
Proof.
  intros [l1 H1] [l2 H2]. exists (l1 ++ l2). now rewrite H2, H1, app_assoc.
Qed.

Lemma extending_set_token v : respects extending (set_token v).
Proof. intros w. exists []. cbn. now rewrite app_nil_r. Qed.

Lemma extending_print line : respects extending (print line).
Proof. intros w. exists []. cbn. now rewrite app_nil_r. Qed.

Lemma extending_urlopen rq : respects extending (urlopen rq).
Proof.
  intros w. unfold extending, urlopen. destruct (serve (net w) rq).
  now exists [rq].
Qed.

Lemma printing_refl w : printing w w.
Proof. exists []. now rewrite app_nil_r. Qed.

Lemma printing_trans a b c : printing a b -> printing b c -> printing a c.
Proof.
  intros [l1 H1] [l2 H2]. exists (l1 ++ l2). now rewrite H2, H1, app_assoc.
Qed.

Lemma printing_print line : respects printing (print line).
Proof. intros w. now exists [line]. Qed.

Section Sending.

Variable u : string.
Variable P : request -> Prop.

Lemma sending_refl w : sending u P w w.
Proof. intros Hu. split; [exact Hu|]. exists []. now rewrite app_nil_r. Qed.

Lemma sending_trans a b c : sending u P a b -> sending u P b c -> sending u P a c.
Proof.
  intros H1 H2 Hu. destruct (H1 Hu) as (Hb & l1 & E1 & F1).
  destruct (H2 Hb) as (Hc & l2 & E2 & F2).
  split; [exact Hc|]. exists (l1 ++ l2). split.
  - now rewrite E2, E1, app_assoc.
  - apply Forall_app. now split.
Qed.

Lemma sending_set_token v : respects (sending u P) (set_token v).
Proof. intros w Hu. split; [exact Hu|]. exists []. cbn. now rewrite app_nil_r. Qed.

Lemma sending_print line : respects (sending u P) (print line).
Proof. intros w Hu. split; [exact Hu|]. exists []. cbn. now rewrite app_nil_r. Qed.

Lemma sending_urlopen rq w : P rq -> sending u P w (snd (urlopen rq w)).
Proof.
  intros HP Hu. unfold urlopen. destruct (serve (net w) rq) as [r net'].
  cbn. split; [exact Hu|]. exists [rq]. split; [reflexivity|].
  now constructor.
Qed.

End Sending.

(** Every request of a run of the driver is a call on the repository name
    after the [library/] prefix was added, or a token request. *)
Lemma main_sending a s0 :
  Forall (fun rq => registry_call (arg_url a) (repository a) rq \/
                    is_token_request rq)
         (sent (snd (main a s0))).
Proof.
  set (P := fun rq => registry_call (arg_url a) (repository a) rq \/
                      is_token_request rq).
  assert (H : sending (arg_url a) P (start a s0) (snd (main a s0))).
  { unfold main.
    apply (respects_driver (sending (arg_url a) P) (sending_refl _ _)
             (sending_trans _ _) (sending_set_token _ _)).
    - intros realm service scope w. apply sending_urlopen.
      right. now exists realm, service, scope.
    - intros suffix method hs w Hu. apply sending_urlopen; [|exact Hu].
      left. exists suffix. cbn. now rewrite Hu.
    - apply sending_print. }
  destruct (H eq_refl) as (_ & l & E & F). now rewrite E.
Qed.

(** C8: a name without [/] gets the prefix [library/], a name with one is
    kept as it is, and every request a run of the driver sends to the
    registry is made on the name so obtained (the only other requests are
    those for a token). *)
Theorem library_prefix_for_all_calls :
  (forall name, contains "/" name = false ->
                library_prefix name = "library/" +++ name) /\
  (forall name, contains "/" name = true -> library_prefix name = name) /\
  (forall a s0,
     Forall (fun rq =>
               registry_call (arg_url a)
                 (library_prefix (fst (split_reference (arg_name a)))) rq \/
               is_token_request rq)
            (sent (snd (main a s0)))).
Proof.
  repeat split.
  - intros name H. unfold library_prefix. now rewrite H.
  - intros name H. unfold library_prefix. now rewrite H.
  - intros a s0. apply main_sending.
Qed.

(** ** The first call of the driver *)

Lemma first_call_headers a s0 :
  with_token (token (self (start a s0))) (or_empty (first_headers a)) =
  Ok (req_headers (first_request a)).
Proof.
  unfold start, first_request. cbn [self token req_headers initial_token].
  destruct (arg_token a) as [[|c t]|]; reflexivity.
Qed.

Lemma listing_first_call a w :
  listing (repository a) (disambiguator a) w =
  bind (first_call a) (after_first_call a) w.
Proof.
  unfold listing, first_call, after_first_call, first_path, first_method,
    first_headers.
  destruct (disambiguator a) as [[|c t]|]; cbn [String.eqb negb].
  - unfold list_images, list_tags. monad_norm.
  - replace (negb (String c t =? "")) with true
      by (symmetry; apply negb_true_iff; now apply String.eqb_neq).
    unfold get_manifests_list_digest. monad_norm.
  - unfold list_images, list_tags. monad_norm.
Qed.

Lemma main_first_call a s0 :
  main a s0 =
  try_except_HTTPError (bind (first_call a) (after_first_call a)) report
    (start a s0).
Proof.
  unfold main, try_except_HTTPError. now rewrite listing_first_call.
Qed.

(** An exception of [api_call] that is no [HTTPError] ends the run as it is. *)
Lemma main_first_call_raises a s0 e w :
  first_call a (start a s0) = (Raise e, w) ->
  (forall x, e <> HTTPError x) ->
  main a s0 = (Raise e, w).
Proof.
  intros Hcall Hnot. rewrite main_first_call. unfold try_except_HTTPError.
  rewrite (bind_Raise _ _ _ _ _ Hcall).
  destruct e; try reflexivity. now destruct (Hnot exception).
Qed.

Lemma search_bearer_prefix tail :
  search_bearer ("Bearer " +++ tail) = Some (snd (span is_space tail)).
Proof. reflexivity. Qed.

Lemma first_missing_lacks found :
  dict_get String.eqb "realm" found = None \/
  dict_get String.eqb "service" found = None \/
  dict_get String.eqb "scope" found = None ->
  exists k, first_missing found = Some k.
Proof.
  unfold first_missing. intros [H|[H|H]].
  - rewrite H. now eexists.
  - destruct (dict_get String.eqb "realm" found); [|now eexists].
    rewrite H. now eexists.
  - destruct (dict_get String.eqb "realm" found); [|now eexists].
    destruct (dict_get String.eqb "service" found); [|now eexists].
    rewrite H. now eexists.
Qed.

Lemma refresh_and_retry_missing path method hs exception w auth rest k :
  code exception = 401%Z ->
  getheader (headers exception) "WWW-Authenticate" = Some auth ->
  search_bearer auth = Some rest ->
  first_missing (challenge_dict (findall_pairs rest)) = Some k ->
  refresh_and_retry path method hs exception w = (Raise (KeyError (Some k)), w).
Proof.
  intros H401 Hauth Hsearch Hmiss.
  unfold refresh_and_retry. rewrite H401, Hauth, Hsearch.
  cbn [Z.eqb Pos.eqb negb]. unfold first_missing in Hmiss. unfold subscript.
  destruct (dict_get String.eqb "realm" _).
  - rewrite bind_lift_Ok.
    destruct (dict_get String.eqb "service" _).
    + rewrite bind_lift_Ok.
      destruct (dict_get String.eqb "scope" _); [discriminate|].
      injection Hmiss as <-. reflexivity.
    + injection Hmiss as <-. reflexivity.
  - injection Hmiss as <-. reflexivity.
Qed.

(** C9: when the 401 response carries a [WWW-Authenticate] header that
    begins with [Bearer] and a space, and the pairs found after it lack
    [realm], [service] or [scope], [api_call] raises [KeyError] for the first
    of the three that is missing, having sent only the original request; and
    when that happens on the first call of a run of the driver, the run ends
    with this [KeyError]: no [HTTPError] reaches the handler, nothing is
    printed, and the process ends with status 1.  Wherever in the [try]
    block a [KeyError] is raised, the handler lets it pass. *)
Theorem missing_challenge_key_raises_KeyError :
  (forall path method hs w hs' r net' tail,
     with_token (token (self w)) (or_empty hs) = Ok hs' ->
     serve (net w)
       {| req_url := url (self w) +++ path; req_method := method;
          req_headers := hs' |} = (r, net') ->
     status r = 401%Z ->
     getheader (reply_headers r) "WWW-Authenticate" = Some ("Bearer " +++ tail) ->
     dict_get String.eqb "realm"
       (challenge_dict (findall_pairs (snd (span is_space tail)))) = None \/
     dict_get String.eqb "service"
       (challenge_dict (findall_pairs (snd (span is_space tail)))) = None \/
     dict_get String.eqb "scope"
       (challenge_dict (findall_pairs (snd (span is_space tail)))) = None ->
     exists k,
       first_missing (challenge_dict (findall_pairs (snd (span is_space tail))))
         = Some k /\
       api_call path method hs w =
       (Raise (KeyError (Some k)),
        after w {| req_url := url (self w) +++ path; req_method := method;
                   req_headers := hs' |} net')) /\
  (forall a s0 r net' tail,
     serve s0 (first_request a) = (r, net') ->
     status r = 401%Z ->
     getheader (reply_headers r) "WWW-Authenticate" = Some ("Bearer " +++ tail) ->
     dict_get String.eqb "realm"
       (challenge_dict (findall_pairs (snd (span is_space tail)))) = None \/
     dict_get String.eqb "service"
       (challenge_dict (findall_pairs (snd (span is_space tail)))) = None \/
     dict_get String.eqb "scope"
       (challenge_dict (findall_pairs (snd (span is_space tail)))) = None ->
     exists k,
       first_missing (challenge_dict (findall_pairs (snd (span is_space tail))))
         = Some k /\
       main a s0 =
       (Raise (KeyError (Some k)), after (start a s0) (first_request a) net') /\
       stdout (snd (main a s0)) = [] /\
       exit_status (fst (main a s0)) = 1%Z) /\
  (forall a s0 k w,
     listing (repository a) (disambiguator a) (start a s0)
       = (Raise (KeyError k), w) ->
     main a s0 = (Raise (KeyError k), w) /\
     exit_status (fst (main a s0)) = 1%Z).
Proof.
  assert (Hcall : forall path method hs w hs' r net' tail k,
     with_token (token (self w)) (or_empty hs) = Ok hs' ->
     serve (net w)
       {| req_url := url (self w) +++ path; req_method := method;
          req_headers := hs' |} = (r, net') ->
     status r = 401%Z ->
     getheader (reply_headers r) "WWW-Authenticate" = Some ("Bearer " +++ tail) ->
     first_missing (challenge_dict (findall_pairs (snd (span is_space tail))))
       = Some k ->
     api_call path method hs w =
     (Raise (KeyError (Some k)),
      after w {| req_url := url (self w) +++ path; req_method := method;
                 req_headers := hs' |} net')).
  { intros path method hs w hs' r net' tail k Hhs Hserve H401 Hauth Hmiss.
    rewrite (api_call_401 _ _ _ _ _ _ _ Hhs Hserve H401).
    apply refresh_and_retry_missing
      with (auth := "Bearer " +++ tail) (rest := snd (span is_space tail)).
    - exact H401.
    - exact Hauth.
    - apply search_bearer_prefix.
    - exact Hmiss. }
  split.
  - intros path method hs w hs' r net' tail Hhs Hserve H401 Hauth Hlack.
    destruct (first_missing_lacks _ Hlack) as [k Hk].
    exists k. split; [exact Hk|]. now apply (Hcall _ _ _ _ _ r _ tail).
  - split.
    2:{ intros a s0 k w Hrun.
        assert (Hmain : main a s0 = (Raise (KeyError k), w))
          by (unfold main, try_except_HTTPError; now rewrite Hrun).
        rewrite Hmain. now split. }
    intros a s0 r net' tail Hserve H401 Hauth Hlack.
    destruct (first_missing_lacks _ Hlack) as [k Hk].
    exists k. split; [exact Hk|].
    assert (Hmain : main a s0 =
              (Raise (KeyError (Some k)),
               after (start a s0) (first_request a) net')).
    { apply main_first_call_raises; [|discriminate].
      unfold first_call.
      apply (Hcall (first_path a) (first_method a) (first_headers a)
               (start a s0) _ r net' tail k (first_call_headers a s0));
        assumption. }
    rewrite Hmain. repeat split.
Qed.

(** ** A run with a tag or a digest *)

Lemma split_reference_tag_nonempty arg :
  (snd (split_reference arg) =? "") = false.
Proof.
  unfold split_reference.
  destruct (str_partition arg "@") as [[name1 sep1] tag1].
  destruct (tag1 =? "") eqn:E1.
  - destruct (str_partition arg ":") as [[name2 sep2] tag2].
    destruct (tag2 =? "") eqn:E2; cbn [snd]; [reflexivity|exact E2].
  - rewrite E1. cbn [snd]. exact E1.
Qed.

Lemma start_quiet {A} a s0 (c : M A) (d : result A) w1 :
  respects quiet c ->
  c (start a s0) = (d, w1) ->
  stdout w1 = [].
Proof.
  intros Hc Hrun. specialize (Hc (start a s0)). rewrite Hrun in Hc. exact Hc.
Qed.

(** What a run does once the digest of the reference and the grouping are
    there. *)
Lemma main_tag_mode a s0 d w1 images w2 :
  arg_all a = false ->
  get_manifests_list_digest (repository a)
    (VStr (snd (split_reference (arg_name a)))) (start a s0) = (Ok d, w1) ->
  list_images (repository a) w1 = (Ok images, w2) ->
  main a s0 =
  match images_getitem images d with
  | Ok tags =>
      match join " " tags with
      | Ok line => print line w2
      | Raise e => (Raise e, w2)
      end
  | Raise e => (Raise e, w2)
  end.
Proof.
  intros Hall Hdigest Himages. unfold main, disambiguator. rewrite Hall.
  unfold try_except_HTTPError, listing.
  rewrite split_reference_tag_nonempty. cbn [negb].
  rewrite (bind_Ok _ _ _ _ _ Hdigest), (bind_Ok _ _ _ _ _ Himages).
  unfold images_getitem.
  destruct (dict_get digest_eqb d images) as [tags|]; [|reflexivity].
  rewrite bind_lift_Ok.
  assert (Hjoin : forall l, match join " " l with
                            | Raise (HTTPError _) => False
                            | _ => True
                            end).
  { induction l as [|[] l IH]; cbn; try exact I.
    destruct l; [exact I|]. destruct (join " " (v :: l)) as [|[]]; tauto. }
  specialize (Hjoin tags).
  destruct (join " " tags) as [line|e].
  - rewrite bind_lift_Ok. reflexivity.
  - rewrite bind_lift_Raise. destruct e; tauto.
Qed.

(** C10: without [--all], when the digest answered for the reference is no
    key of the grouping [list_images] returns, the run ends with the
    [KeyError] of the lookup [images[digest]]: nothing was printed, no
    [HTTPError] reaches the handler, and the process ends with status 1. *)
Theorem unlisted_digest_raises_KeyError a s0 d w1 images w2 :
  arg_all a = false ->
  get_manifests_list_digest (repository a)
    (VStr (snd (split_reference (arg_name a)))) (start a s0) = (Ok d, w1) ->
  list_images (repository a) w1 = (Ok images, w2) ->
  dict_get digest_eqb d images = None ->
  main a s0 = (Raise (KeyError d), w2) /\
  stdout w2 = [] /\
  exit_status (fst (main a s0)) = 1%Z.
Proof.
  intros Hall Hdigest Himages Hnone.
  assert (Hmain : main a s0 = (Raise (KeyError d), w2)).
  { rewrite (main_tag_mode a s0 d w1 images w2 Hall Hdigest Himages).
    unfold images_getitem. now rewrite Hnone. }
  rewrite Hmain. repeat split.
  pose proof (list_images_quiet (repository a) w1) as Hq.
  rewrite Himages in Hq. unfold quiet in Hq. cbn [snd] in Hq. rewrite Hq.
  apply (start_quiet a s0 _ _ _ (get_manifests_list_digest_quiet _ _) Hdigest).
Qed.

(** The log of a run starts with the first request of its first call. *)
Lemma main_first_request a s0 :
  exists rest, sent (snd (main a s0)) = first_request a :: rest.
Proof.
  destruct (serve s0 (first_request a)) as [r net1] eqn:Hserve.
  pose proof (api_call_run (first_path a) (first_method a) (first_headers a)
                (start a s0) _ r net1 (first_call_headers a s0) Hserve) as Hcall.
  fold (first_call a) in Hcall.
  change {| req_url := url (self (start a s0)) +++ first_path a;
            req_method := first_method a;
            req_headers := req_headers (first_request a) |}
    with (first_request a) in Hcall.
  set (w1 := after (start a s0) (first_request a) net1) in *.
  set (c' := fun w : world =>
               match outcome (first_request a) r with
               | Raise (HTTPError exception) =>
                   refresh_and_retry (first_path a) (first_method a)
                     (req_headers (first_request a)) exception w
               | other => (other, w)
               end).
  assert (Hshift : main a s0 =
            try_except_HTTPError (bind c' (after_first_call a)) report w1).
  { rewrite main_first_call. unfold try_except_HTTPError, bind.
    rewrite Hcall. unfold c'.
    destruct (outcome (first_request a) r) as [resp|[]]; reflexivity. }
  assert (Hext : extending w1 (snd (main a s0))).
  { rewrite Hshift.
    assert (Hreq : forall rq w, extending w (snd (urlopen rq w)))
      by (intros rq w; apply extending_urlopen).
    apply (R_try extending extending_trans).
    - apply (R_bind extending extending_trans).
      + unfold c'. destruct (outcome (first_request a) r) as [resp|[]];
          try apply extending_refl.
        apply (respects_refresh_and_retry extending extending_refl
                 extending_trans extending_set_token
                 (fun _ _ _ => extending_urlopen _)).
        intros method hs w. apply Hreq.
      + intros resp w' _. unfold after_first_call.
        destruct (disambiguator a) as [[|c t]|].
        * apply (R_bind_lift extending extending_refl). intros doc _.
          apply (R_bind_lift extending extending_refl). intros tags _.
          apply (R_bind_lift extending extending_refl). intros items _.
          apply (R_bind extending extending_trans).
          -- apply (respects_list_images_loop extending extending_refl
                      extending_trans extending_set_token
                      (fun _ _ _ => extending_urlopen _)).
             intros suffix method hs w. apply Hreq.
          -- intros images w2 _.
             apply (respects_print_images extending extending_refl
                      extending_trans extending_print).
        * apply (R_bind extending extending_trans).
          -- apply (respects_list_images extending extending_refl
                      extending_trans extending_set_token
                      (fun _ _ _ => extending_urlopen _)).
             intros suffix method hs w. apply Hreq.
          -- intros images w2 _.
             apply (R_bind_lift extending extending_refl). intros tags _.
             apply (R_bind_lift extending extending_refl). intros line _.
             apply extending_print.
        * apply (R_bind_lift extending extending_refl). intros doc _.
          apply (R_bind_lift extending extending_refl). intros tags _.
          apply (R_bind_lift extending extending_refl). intros items _.
          apply (R_bind extending extending_trans).
          -- apply (respects_list_images_loop extending extending_refl
                      extending_trans extending_set_token
                      (fun _ _ _ => extending_urlopen _)).
             intros suffix method hs w. apply Hreq.
          -- intros images w2 _.
             apply (respects_print_images extending extending_refl
                      extending_trans extending_print).
    - intros e w'.
      apply (respects_report extending extending_refl extending_trans
               extending_print). }
  destruct Hext as [l Hl]. exists l. rewrite Hl. reflexivity.
Qed.

(** C2, as the code has it: for a reference [pre@dig] without [--all], the
    first request of the run is the [HEAD] request for the manifest of
    [dig], sent before anything [list_images] sends; and the group of tags
    printed is the one filed under the [Docker-Content-Digest] that request
    answered. *)
Theorem digest_reference_is_resolved_first a pre dig :
  arg_name a = pre +++ "@" +++ dig ->
  contains "@" pre = false ->
  dig <> "" ->
  arg_all a = false ->
  (forall s0, exists rest,
     sent (snd (main a s0)) =
     {| req_url := arg_url a +++ "/v2/" +++ library_prefix pre +++ "/manifests/" +++ dig;
        req_method := "HEAD";
        req_headers :=
          match arg_token a with
          | Some ((String _ _) as t) =>
              [("Accept", manifest_list_type); ("Authorization", "Bearer " +++ t)]
          | _ => [("Accept", manifest_list_type)]
          end |} :: rest) /\
  (forall s0 d w1 images w2 tags line,
     get_manifests_list_digest (library_prefix pre) (VStr dig) (start a s0)
       = (Ok d, w1) ->
     list_images (library_prefix pre) w1 = (Ok images, w2) ->
     dict_get digest_eqb d images = Some tags ->
     join " " tags = Ok line ->
     main a s0 =
     (Ok tt, {| self := self w2; net := net w2; sent := sent w2;
                stdout := [line] |})).
Proof.
  intros Hname Hpre Hdig Hall.
  assert (Hsplit : split_reference (arg_name a) = (pre, dig))
    by (rewrite Hname; now apply split_reference_at).
  assert (Hrepo : repository a = library_prefix pre)
    by (unfold repository; now rewrite Hsplit).
  assert (Hdis : disambiguator a = Some dig)
    by (unfold disambiguator; now rewrite Hall, Hsplit).
  split.
  - intros s0. destruct (main_first_request a s0) as [rest Hrest].
    exists rest. rewrite Hrest. f_equal.
    unfold first_request, first_path, first_method, first_headers.
    rewrite Hdis, Hrepo.
    destruct dig as [|c dig']; [now destruct Hdig|].
    destruct (arg_token a) as [[|c' t]|]; reflexivity.
  - intros s0 d w1 images w2 tags line Hdigest Himages Hget Hjoin.
    assert (Htag : snd (split_reference (arg_name a)) = dig)
      by now rewrite Hsplit.
    rewrite <- Hrepo, <- Htag in Hdigest. rewrite <- Hrepo in Himages.
    rewrite (main_tag_mode a s0 d w1 images w2 Hall Hdigest Himages).
    unfold images_getitem. rewrite Hget, Hjoin. unfold print.
    pose proof (list_images_quiet (repository a) w1) as Hq.
    rewrite Himages in Hq. unfold quiet in Hq. cbn [snd] in Hq.
    rewrite Hq.
    rewrite (start_quiet a s0 _ _ _ (get_manifests_list_digest_quiet _ _) Hdigest).
    reflexivity.
Qed.

(** ** Exceptions of the [try] block *)

Definition exits {A} (r : result A) : bool :=
  match r with
  | Raise (SystemExit _) => true
  | _ => false
  end.

(** A computation that never raises [SystemExit]. *)
Definition never_exits {A} (c : M A) : Prop :=
  forall w, exits (fst (c w)) = false.

Lemma never_exits_bind {A B} (c : M A) (k : A -> M B) :
  never_exits c -> (forall a, never_exits (k a)) -> never_exits (bind c k).
Proof.
  intros Hc Hk w. unfold bind. specialize (Hc w).
  destruct (c w) as [[a|e] w']; [apply Hk|exact Hc].
Qed.

Lemma never_exits_lift {A} (r : result A) :
  exits r = false -> never_exits (lift r).
Proof. intros H w. exact H. Qed.

Lemma never_exits_urlopen rq : never_exits (urlopen rq).
Proof.
  intros w. unfold urlopen. destruct (serve (net w) rq) as [r net'].
  cbn [fst]. unfold outcome. now destruct (_ && _)%bool.
Qed.

Lemma exits_getitem v k : exits (getitem v k) = false.
Proof. unfold getitem. destruct v; try reflexivity. now destruct (dict_get _ _ _). Qed.

Lemma exits_subscript d k : exits (subscript d k) = false.
Proof. unfold subscript. now destruct (dict_get _ _ _). Qed.

Lemma exits_iter v : exits (iter v) = false.
Proof. now destruct v. Qed.

Lemma exits_json_load r : exits (json_load r) = false.
Proof. unfold json_load. now destruct (json_loads _). Qed.

Lemma exits_authorize tok hs : exits (authorize tok hs) = false.
Proof. unfold authorize, str_add. now destruct tok. Qed.

Lemma exits_with_token tok hs : exits (with_token tok hs) = false.
Proof.
  unfold with_token. destruct (truthy tok); [apply exits_authorize|reflexivity].
Qed.

Lemma exits_join sep items : exits (join sep items) = false.
Proof.
  induction items as [|v rest IH]; [reflexivity|].
  destruct v; try reflexivity.
  destruct rest as [|v' rest']; [reflexivity|].
  change (join sep (VStr s :: v' :: rest'))
    with (match join sep (v' :: rest') with
          | Ok t => Ok (s +++ sep +++ t)
          | Raise e => Raise e
          end).
  now destruct (join sep (v' :: rest')).
Qed.

Lemma never_exits_get_token realm service scope :
  never_exits (get_token realm service scope).
Proof.
  unfold get_token. apply never_exits_bind; [apply never_exits_urlopen|].
  intros resp. destruct (negb (code resp =? 200)%Z); [now intros w|].
  apply never_exits_bind; [apply never_exits_lift, exits_json_load|].
  intros doc. apply never_exits_bind; [apply never_exits_lift, exits_getitem|].
  intros tok w. reflexivity.
Qed.

Lemma never_exits_api_call path method hs : never_exits (api_call path method hs).
Proof.
  unfold api_call. intros w. rewrite bind_get_self. revert w.
  intros w.
  pose proof (exits_with_token (token (self w)) (or_empty hs)) as Hhs.
  destruct (with_token (token (self w)) (or_empty hs)) as [hs'|e];
    [rewrite bind_lift_Ok|exact Hhs].
  unfold try_except_HTTPError.
  pose proof (never_exits_urlopen
                {| req_url := url (self w) +++ path; req_method := method;
                   req_headers := hs' |} w) as Hopen.
  destruct (urlopen _ w) as [[resp|[exception| | | |]] w1]; try exact Hopen.
  clear Hopen. revert w1.
  change (never_exits (refresh_and_retry path method hs' exception)).
  unfold refresh_and_retry.
  destruct (negb (code exception =? 401)%Z); [now intros w1|].
  destruct (getheader _ _) as [auth|]; [|now intros w1].
  destruct (search_bearer auth) as [rest|]; [|now intros w1].
  apply never_exits_bind; [apply never_exits_lift, exits_subscript|]. intros realm.
  apply never_exits_bind; [apply never_exits_lift, exits_subscript|]. intros service.
  apply never_exits_bind; [apply never_exits_lift, exits_subscript|]. intros scope.
  apply never_exits_bind; [apply never_exits_get_token|]. intros [].
  apply never_exits_bind; [now intros w1|]. intros me.
  apply never_exits_bind; [apply never_exits_lift, exits_authorize|]. intros hs2.
  apply never_exits_urlopen.
Qed.

Lemma never_exits_get_manifests_list_digest name ref :
  never_exits (get_manifests_list_digest name ref).
Proof.
  unfold get_manifests_list_digest.
  apply never_exits_bind; [apply never_exits_api_call|]. now intros resp w.
Qed.

Lemma never_exits_list_images name : never_exits (list_images name).
Proof.
  unfold list_images, list_tags.
  apply never_exits_bind.
  - apply never_exits_bind; [apply never_exits_api_call|]. intros resp.
    apply never_exits_bind; [apply never_exits_lift, exits_json_load|]. intros doc.
    apply never_exits_lift, exits_getitem.
  - intros tags. apply never_exits_bind; [apply never_exits_lift, exits_iter|].
    intros items. generalize (@nil (option string * list value)).
    induction items as [|tag rest IH]; intros images; simpl.
    + now intros w.
    + apply never_exits_bind; [apply never_exits_get_manifests_list_digest|].
      intros digest. apply IH.
Qed.

Lemma never_exits_print_images items : never_exits (print_images items).
Proof.
  induction items as [|[digest tags] rest IH]; simpl; [now intros w|].
  apply never_exits_bind.
  - apply never_exits_lift. unfold digest_line. destruct digest; [|reflexivity].
    pose proof (exits_join " " tags) as H. now destruct (join " " tags).
  - intros line. apply never_exits_bind; [now intros w|]. intros []. apply IH.
Qed.

Lemma never_exits_listing name tag : never_exits (listing name tag).
Proof.
  assert (Hall : never_exits (images <- list_images name ;; print_images images)).
  { apply never_exits_bind; [apply never_exits_list_images|].
    intros images. apply never_exits_print_images. }
  unfold listing. destruct tag as [t|]; [|exact Hall].
  destruct (negb (t =? "")); [|exact Hall].
  apply never_exits_bind; [apply never_exits_get_manifests_list_digest|].
  intros digest. apply never_exits_bind; [apply never_exits_list_images|].
  intros images. apply never_exits_bind.
  - apply never_exits_lift. unfold images_getitem. now destruct (dict_get _ _ _).
  - intros tags. apply never_exits_bind; [apply never_exits_lift, exits_join|].
    intros line w. reflexivity.
Qed.

(** ** The handler of the driver *)

Lemma printed_nil w : printed w [] = w.
Proof. destruct w. unfold printed. cbn. now rewrite app_nil_r. Qed.

Lemma print_errors_fields items entries w :
  Forall2 has_fields items entries ->
  print_errors items w = (Ok tt, printed w (concat (map error_lines entries))).
Proof.
  intros H. revert w. induction H as [|error [[c m] d] items entries Hf _ IH];
    intros w; simpl.
  - unfold ret. now rewrite printed_nil.
  - destruct Hf as (Hc & Hm & Hd).
    rewrite Hc, bind_lift_Ok, Hm, bind_lift_Ok.
    unfold bind at 1. unfold print at 1.
    rewrite Hd, bind_lift_Ok.
    unfold bind at 1. unfold print at 1.
    rewrite IH. unfold printed. cbn. now rewrite <- !app_assoc.
Qed.

(** An entry that has one member and lacks another is a [dict], and the
    lookup of the missing one raises the [KeyError] for it. *)
Lemma getitem_missing error k c k' e' :
  getitem error k = Ok c -> getitem error k' = Raise e' ->
  e' = KeyError (Some k').
Proof.
  unfold getitem. destruct error; try discriminate. intros _.
  destruct (dict_get String.eqb k' d); [discriminate|].
  intros H. now injection H as <-.
Qed.

(** The loop stops at the first entry without [detail], its first line
    printed. *)
Lemma print_errors_stops items entries error c m e' post w :
  Forall2 has_fields items entries ->
  getitem error "code" = Ok c ->
  getitem error "message" = Ok m ->
  getitem error "detail" = Raise e' ->
  print_errors (items ++ error :: post) w =
  (Raise e',
   printed w (concat (map error_lines entries) ++ [str c +++ ": " +++ str m])).
Proof.
  intros H Hc' Hm' Hd'. revert w.
  induction H as [|error0 [[c0 m0] d0] items entries Hf _ IH]; intros w; simpl.
  - rewrite Hc', bind_lift_Ok, Hm', bind_lift_Ok.
    unfold bind at 1. unfold print at 1.
    rewrite Hd', bind_lift_Raise. reflexivity.
  - destruct Hf as (Hc & Hm & Hd).
    rewrite Hc, bind_lift_Ok, Hm, bind_lift_Ok.
    unfold bind at 1. unfold print at 1.
    rewrite Hd, bind_lift_Ok.
    unfold bind at 1. unfold print at 1.
    rewrite IH. unfold printed. cbn. now rewrite <- !app_assoc.
Qed.

Lemma getitem_crash v k :
  match getitem v k with
  | Ok _ => True
  | Raise e => exit_status (Raise e : result unit) = 1%Z
  end.
Proof.
  unfold getitem. destruct v; try reflexivity.
  now destruct (dict_get String.eqb k d).
Qed.

Lemma print_errors_crash items w :
  match fst (print_errors items w) with
  | Ok _ => True
  | Raise e => exit_status (Raise e : result unit) = 1%Z
  end.
Proof.
  revert w. induction items as [|error rest IH]; intros w; simpl; [exact I|].
  pose proof (getitem_crash error "code") as Hc.
  destruct (getitem error "code") as [c|e]; [|exact Hc].
  rewrite bind_lift_Ok.
  pose proof (getitem_crash error "message") as Hm.
  destruct (getitem error "message") as [m|e]; [|exact Hm].
  rewrite bind_lift_Ok. unfold bind at 1. unfold print at 1.
  pose proof (getitem_crash error "detail") as Hd.
  destruct (getitem error "detail") as [d|e]; [|exact Hd].
  rewrite bind_lift_Ok. unfold bind at 1. unfold print at 1.
  apply IH.
Qed.

(** Whatever the body of the error response holds, the handler ends the
    process with status 1. *)
Lemma report_status exception w :
  exit_status (fst (report exception w)) = 1%Z.
Proof.
  unfold report. unfold bind at 1. unfold print at 1.
  destruct (negb (fp exception =? "")).
  - destruct (json_loads (fp exception)) as [doc|]; [|reflexivity].
    rewrite bind_assoc, bind_lift_Ok, bind_assoc.
    pose proof (getitem_crash doc "errors") as He.
    destruct (getitem doc "errors") as [errors|e]; [|exact He].
    rewrite bind_lift_Ok, bind_assoc.
    destruct (iter errors) as [items|e] eqn:Hiter.
    + rewrite bind_lift_Ok.
      match goal with |- context [bind (print_errors items) _ ?w0] =>
        pose proof (print_errors_crash items w0) as Hp;
        destruct (print_errors items w0) as [[[]|e] w'] eqn:Hrun
      end.
      * now rewrite (bind_Ok _ _ _ _ _ Hrun).
      * now rewrite (bind_Raise _ _ _ _ _ Hrun).
    + rewrite bind_lift_Raise.
      destruct errors; try discriminate; injection Hiter as <-; reflexivity.
  - reflexivity.
Qed.

Lemma report_prints_first exception w :
  exists rest,
    stdout (snd (report exception w)) = stdout w ++ str_HTTPError exception :: rest.
Proof.
  unfold report. unfold bind at 1. unfold print at 1.
  match goal with |- context [bind ?c ?k ?w0] =>
    assert (H : printing w0 (snd (bind c k w0)))
  end.
  { apply (R_bind printing printing_trans).
    - destruct (negb (fp exception =? "")); [|apply printing_refl].
      apply (R_bind_lift printing printing_refl). intros doc _.
      apply (R_bind_lift printing printing_refl). intros errors _.
      apply (R_bind_lift printing printing_refl). intros items _.
      apply (respects_print_errors printing printing_refl printing_trans
               printing_print).
    - intros [] w' _. apply printing_refl. }
  destruct H as [l Hl]. exists l. rewrite Hl. cbn [stdout].
  now rewrite <- app_assoc.
Qed.

Lemma report_empty exception w :
  fp exception = "" ->
  report exception w = (Raise (SystemExit 1), printed w [str_HTTPError exception]).
Proof. intros H. unfold report. now rewrite H. Qed.

Lemma report_errors exception w doc errors items entries :
  fp exception <> "" ->
  json_loads (fp exception) = Some doc ->
  getitem doc "errors" = Ok errors ->
  iter errors = Ok items ->
  Forall2 has_fields items entries ->
  report exception w =
  (Raise (SystemExit 1),
   printed w (str_HTTPError exception :: concat (map error_lines entries))).
Proof.
  intros Hdata Hjson Herrors Hiter Hfields. unfold report.
  rewrite (eqb_empty_false _ Hdata). cbn [negb].
  unfold bind at 1. unfold print at 1. rewrite Hjson.
  rewrite bind_assoc, bind_lift_Ok, bind_assoc, Herrors, bind_lift_Ok,
    bind_assoc, Hiter, bind_lift_Ok.
  rewrite (bind_Ok _ _ _ _ _ (print_errors_fields _ _ _ Hfields)).
  unfold raise, printed. cbn. now rewrite <- app_assoc.
Qed.

Lemma report_stops exception w doc errors items pre entries error c m e' post :
  fp exception <> "" ->
  json_loads (fp exception) = Some doc ->
  getitem doc "errors" = Ok errors ->
  iter errors = Ok items ->
  items = pre ++ error :: post ->
  Forall2 has_fields pre entries ->
  getitem error "code" = Ok c ->
  getitem error "message" = Ok m ->
  getitem error "detail" = Raise e' ->
  report exception w =
  (Raise (KeyError (Some "detail")),
   printed w (str_HTTPError exception ::
              concat (map error_lines entries) ++ [str c +++ ": " +++ str m])).
Proof.
  intros Hdata Hjson Herrors Hiter -> Hfields Hc Hm Hd. unfold report.
  rewrite (eqb_empty_false _ Hdata). cbn [negb].
  unfold bind at 1. unfold print at 1. rewrite Hjson.
  rewrite bind_assoc, bind_lift_Ok, bind_assoc, Herrors, bind_lift_Ok,
    bind_assoc, Hiter, bind_lift_Ok.
  rewrite (bind_Raise _ _ _ _ _
             (print_errors_stops _ _ _ _ _ _ post _ Hfields Hc Hm Hd)).
  rewrite (getitem_missing _ _ _ _ _ Hc Hd).
  unfold printed. cbn. now rewrite <- app_assoc.
Qed.

(** C5, as the code has it: when an [HTTPError] reaches the handler of the
    driver, the process ends with status 1 and the first line printed is the
    string form of the error; with an empty body nothing else is printed;
    with a body that is a JSON document whose [errors] entries have a
    [code], a [message] and a [detail], each entry is printed as the line
    [code: message] and the line [details: ] followed by the [repr] of the
    detail, and the handler ends with [sys.exit(1)]; when an entry has a
    [code] and a [message] and no [detail], the lines of the entries before
    it and its line [code: message] are printed, and the handler raises the
    [KeyError] for [detail].  A run whose [try] block ends without an
    exception ends with status 0; a run that raises anything else than an
    [HTTPError] is not handled, and ends with status 1 as well (the [try]
    block never raises [SystemExit]). *)
Theorem http_error_is_reported a s0 :
  (forall e w1,
     listing (repository a) (disambiguator a) (start a s0)
       = (Raise (HTTPError e), w1) ->
     exit_status (fst (main a s0)) = 1%Z /\
     (exists rest,
        stdout (snd (main a s0)) = stdout w1 ++ str_HTTPError e :: rest) /\
     (fp e = "" ->
      main a s0 = (Raise (SystemExit 1), printed w1 [str_HTTPError e])) /\
     (forall doc errors items entries,
        fp e <> "" ->
        json_loads (fp e) = Some doc ->
        getitem doc "errors" = Ok errors ->
        iter errors = Ok items ->
        Forall2 has_fields items entries ->
        main a s0 =
        (Raise (SystemExit 1),
         printed w1 (str_HTTPError e :: concat (map error_lines entries)))) /\
     (forall doc errors items pre entries error c m e' post,
        fp e <> "" ->
        json_loads (fp e) = Some doc ->
        getitem doc "errors" = Ok errors ->
        iter errors = Ok items ->
        items = pre ++ error :: post ->
        Forall2 has_fields pre entries ->
        getitem error "code" = Ok c ->
        getitem error "message" = Ok m ->
        getitem error "detail" = Raise e' ->
        main a s0 =
        (Raise (KeyError (Some "detail")),
         printed w1 (str_HTTPError e ::
                     concat (map error_lines entries) ++
                     [str c +++ ": " +++ str m])))) /\
  (forall w1,
     listing (repository a) (disambiguator a) (start a s0) = (Ok tt, w1) ->
     main a s0 = (Ok tt, w1) /\ exit_status (fst (main a s0)) = 0%Z) /\
  (forall e w1,
     listing (repository a) (disambiguator a) (start a s0) = (Raise e, w1) ->
     (forall x, e <> HTTPError x) ->
     main a s0 = (Raise e, w1) /\
     ((forall n, e <> SystemExit n) -> exit_status (fst (main a s0)) = 1%Z)) /\
  (forall e w1,
     listing (repository a) (disambiguator a) (start a s0) = (Raise e, w1) ->
     exit_status (fst (main a s0)) = 1%Z).
Proof.
  repeat split.
  - unfold main, try_except_HTTPError. rewrite H. apply report_status.
  - unfold main, try_except_HTTPError. rewrite H. apply report_prints_first.
  - intros Hfp. unfold main, try_except_HTTPError. rewrite H.
    now apply report_empty.
  - intros doc errors items entries Hdata Hjson Herrors Hiter Hfields.
    unfold main, try_except_HTTPError. rewrite H.
    now apply (report_errors _ _ doc errors items).
  - intros doc errors items pre entries error c m e' post Hdata Hjson Herrors
      Hiter Hitems Hfields Hc Hm Hd.
    unfold main, try_except_HTTPError. rewrite H.
    now apply (report_stops _ _ doc errors items pre entries error c m e' post).
  - unfold main, try_except_HTTPError. now rewrite H.
  - unfold main, try_except_HTTPError. now rewrite H.
  - unfold main, try_except_HTTPError. rewrite H.
    destruct e; try reflexivity. now destruct (H0 exception).
  - intros Hexit. unfold main, try_except_HTTPError. rewrite H.
    destruct e; try reflexivity.
    + now destruct (H0 exception).
    + now destruct (Hexit status0).
  - intros e w1 H.
    pose proof (never_exits_listing (repository a) (disambiguator a)
                  (start a s0)) as Hne.
    unfold main, try_except_HTTPError. rewrite H in *. cbn [fst] in Hne.
    destruct e; try reflexivity; [apply report_status|discriminate].
Qed.

(** * Further properties of the code *)

(** ** The token request *)

(** X1: the token changes only when [get_token] returns: whenever it raises,
    the registry object is as it was, one request has gone out, and nothing
    was printed. *)
Theorem get_token_failure_keeps_token realm service scope w e w' :
  get_token realm service scope w = (Raise e, w') ->
  self w' = self w /\
  sent w' = sent w ++ [token_request realm service scope] /\
  stdout w' = stdout w.
Proof.
  unfold get_token. run_monad.
  destruct (serve (net w) (token_request realm service scope)) as [r1 net2].
  destruct (outcome _ r1) as [resp|e0].
  - destruct (negb (code resp =? 200)%Z).
    + intros H. injection H as _ <-. now repeat split.
    + destruct (json_load resp) as [doc|e1].
      * destruct (getitem doc "token") as [tok|e2]; [discriminate|].
        intros H. injection H as _ <-. now repeat split.
      * intros H. injection H as _ <-. now repeat split.
  - intros H. injection H as _ <-. now repeat split.
Qed.

(** X2: a token endpoint that answers anything else than 200 makes [get_token]
    raise an [HTTPError] with the status, headers and body of the answer;
    for a status in 200..299 its message is the one of line 41. *)
Theorem get_token_rejects_other_status realm service scope w r1 net2 :
  serve (net w) (token_request realm service scope) = (r1, net2) ->
  status r1 <> 200%Z ->
  exists e,
    get_token realm service scope w =
      (Raise (HTTPError e), after w (token_request realm service scope) net2) /\
    resp_url e = req_url (token_request realm service scope) /\
    code e = status r1 /\
    headers e = reply_headers r1 /\
    fp e = payload r1 /\
    msg e = (if ((200 <=? status r1) && (status r1 <? 300))%Z
             then "Could not get auth token" else reason r1).
Proof.
  intros Hserve Hstatus. unfold get_token. run_monad. rewrite Hserve.
  unfold outcome.
  destruct ((200 <=? status r1) && (status r1 <? 300))%Z.
  - cbn [received code].
    replace (status r1 =? 200)%Z with false
      by (symmetry; now apply Z.eqb_neq).
    cbn [negb]. eexists. split; [reflexivity|]. now repeat split.
  - eexists. split; [reflexivity|]. now repeat split.
Qed.

(** ** One call of [api_call], whatever the answer *)

Lemma api_call_not_401 path method hs w hs' r net' :
  with_token (token (self w)) (or_empty hs) = Ok hs' ->
  serve (net w)
    {| req_url := url (self w) +++ path; req_method := method; req_headers := hs' |}
    = (r, net') ->
  status r <> 401%Z ->
  api_call path method hs w =
  (outcome {| req_url := url (self w) +++ path; req_method := method;
              req_headers := hs' |} r,
   after w {| req_url := url (self w) +++ path; req_method := method;
              req_headers := hs' |} net').
Proof.
  intros Hhs Hserve Hstatus.
  rewrite (api_call_run _ _ _ _ _ _ _ Hhs Hserve).
  unfold outcome.
  destruct ((200 <=? status r) && (status r <? 300))%Z; [reflexivity|].
  unfold refresh_and_retry. cbn [received code].
  replace (status r =? 401)%Z with false by (symmetry; now apply Z.eqb_neq).
  reflexivity.
Qed.

(** X3: an answer with any status but 401, a success or a failure, ends the call
    after this one request: its outcome is the outcome of the call and the
    token is left alone. *)
Theorem api_call_without_challenge path method hs w hs' r net' :
  with_token (token (self w)) (or_empty hs) = Ok hs' ->
  serve (net w)
    {| req_url := url (self w) +++ path; req_method := method; req_headers := hs' |}
    = (r, net') ->
  status r <> 401%Z ->
  api_call path method hs w =
  (outcome {| req_url := url (self w) +++ path; req_method := method;
              req_headers := hs' |} r,
   after w {| req_url := url (self w) +++ path; req_method := method;
              req_headers := hs' |} net') /\
  self (snd (api_call path method hs w)) = self w /\
  sent (snd (api_call path method hs w)) =
    sent w ++ [{| req_url := url (self w) +++ path; req_method := method;
                  req_headers := hs' |}].
Proof.
  intros Hhs Hserve Hstatus.
  rewrite (api_call_not_401 _ _ _ _ _ _ _ Hhs Hserve Hstatus).
  now repeat split.
Qed.

Lemma refresh_and_retry_bound path method hs exception w :
  stdout (snd (refresh_and_retry path method hs exception w)) = stdout w /\
  url (self (snd (refresh_and_retry path method hs exception w))) = url (self w) /\
  exists l,
    sent (snd (refresh_and_retry path method hs exception w)) = sent w ++ l /\
    (length l <= 2)%nat.
Proof.
  assert (Hsame : stdout w = stdout w /\ url (self w) = url (self w) /\
                  exists l, sent w = sent w ++ l /\ (length l <= 2)%nat)
    by (repeat split; exists []; split; [now rewrite app_nil_r | cbn; lia]).
  unfold refresh_and_retry.
  destruct (negb (code exception =? 401)%Z); [exact Hsame|].
  destruct (getheader _ _) as [auth|]; [|exact Hsame].
  destruct (search_bearer auth) as [rest|]; [|exact Hsame].
  destruct (subscript _ "realm") as [realm|e]; [|exact Hsame].
  rewrite bind_lift_Ok.
  destruct (subscript _ "service") as [service|e]; [|exact Hsame].
  rewrite bind_lift_Ok.
  destruct (subscript _ "scope") as [scope|e]; [|exact Hsame].
  rewrite bind_lift_Ok.
  destruct (get_token_footprint realm service scope w) as (Hurl & Hout & Hsent).
  destruct (get_token realm service scope w) as [[[]|e] w1] eqn:Htoken;
    cbn [snd] in Hurl, Hout, Hsent.
  - rewrite (bind_Ok _ _ _ _ _ Htoken), bind_get_self.
    destruct (authorize (token (self w1)) hs) as [hs2|e].
    + rewrite bind_lift_Ok. unfold urlopen.
      destruct (serve (net w1) _) as [r2 net3]. cbn [snd stdout self sent].
      repeat split; try assumption.
      eexists. split; [rewrite Hsent, <- app_assoc; reflexivity|cbn; lia].
    + rewrite bind_lift_Raise. cbn [snd].
      repeat split; try assumption.
      eexists. split; [exact Hsent|cbn; lia].
  - rewrite (bind_Raise _ _ _ _ _ Htoken). cbn [snd].
    repeat split; try assumption.
    eexists. split; [exact Hsent|cbn; lia].
Qed.

(** X4: whatever the server answers, one call of [api_call] sends at most three
    requests, prints nothing and leaves the registry URL as it was. *)
Theorem api_call_at_most_three_requests path method hs w :
  stdout (snd (api_call path method hs w)) = stdout w /\
  url (self (snd (api_call path method hs w))) = url (self w) /\
  exists l,
    sent (snd (api_call path method hs w)) = sent w ++ l /\
    (length l <= 3)%nat.
Proof.
  destruct (with_token (token (self w)) (or_empty hs)) as [hs'|e] eqn:Hhs.
  - destruct (serve (net w)
                {| req_url := url (self w) +++ path; req_method := method;
                   req_headers := hs' |}) as [r net'] eqn:Hserve.
    rewrite (api_call_run _ _ _ _ _ _ _ Hhs Hserve).
    assert (Hone : forall (x : result response),
              stdout (snd (x, after w {| req_url := url (self w) +++ path;
                                         req_method := method;
                                         req_headers := hs' |} net')) = stdout w /\
              url (self (snd (x, after w {| req_url := url (self w) +++ path;
                                            req_method := method;
                                            req_headers := hs' |} net')))
                = url (self w) /\
              exists l,
                sent (snd (x, after w {| req_url := url (self w) +++ path;
                                         req_method := method;
                                         req_headers := hs' |} net'))
                  = sent w ++ l /\ (length l <= 3)%nat).
    { intros x. cbn. repeat split. eexists. split; [reflexivity|cbn; lia]. }
    destruct (outcome _ r) as [resp|[exception| | | |]]; try apply Hone.
    destruct (refresh_and_retry_bound path method hs' exception
                (after w {| req_url := url (self w) +++ path;
                            req_method := method; req_headers := hs' |} net'))
      as (Hout & Hurl & l & Hsent & Hlen).
    repeat split; try assumption.
    exists ({| req_url := url (self w) +++ path; req_method := method;
               req_headers := hs' |} :: l).
    split; [rewrite Hsent; cbn [after sent]; now rewrite <- app_assoc|cbn; lia].
  - unfold api_call. rewrite bind_get_self, Hhs, bind_lift_Raise. cbn [snd].
    repeat split. exists []. split; [now rewrite app_nil_r|cbn; lia].
Qed.

Lemma api_call_first_sent path method hs w hs' :
  with_token (token (self w)) (or_empty hs) = Ok hs' ->
  exists rest,
    sent (snd (api_call path method hs w)) =
    sent w ++ {| req_url := url (self w) +++ path; req_method := method;
                 req_headers := hs' |} :: rest.
Proof.
  intros Hhs.
  destruct (serve (net w)
              {| req_url := url (self w) +++ path; req_method := method;
                 req_headers := hs' |}) as [r net'] eqn:Hserve.
  rewrite (api_call_run _ _ _ _ _ _ _ Hhs Hserve).
  destruct (outcome _ r) as [resp|[exception| | | |]];
    try (exists []; reflexivity).
  destruct (refresh_and_retry_bound path method hs' exception
              (after w {| req_url := url (self w) +++ path;
                          req_method := method; req_headers := hs' |} net'))
    as (_ & _ & l & Hsent & _).
  exists l. rewrite Hsent. cbn [after sent]. now rewrite <- app_assoc.
Qed.

(** X5: a token that is a non-empty string is presented on the first request as
    [Authorization: Bearer] followed by it, beside the headers the caller
    gave; with no token, or with the empty string, the headers go out as
    given; a token that is true and no string raises [TypeError] before
    anything is sent. *)
Theorem api_call_presents_token path method hs w :
  (forall t, token (self w) = VStr t -> t <> "" ->
     exists rest,
       sent (snd (api_call path method hs w)) =
       sent w ++
       {| req_url := url (self w) +++ path; req_method := method;
          req_headers :=
            dict_set String.eqb "Authorization" ("Bearer " +++ t) (or_empty hs) |}
       :: rest) /\
  (token (self w) = VNone \/ token (self w) = VStr "" ->
     exists rest,
       sent (snd (api_call path method hs w)) =
       sent w ++
       {| req_url := url (self w) +++ path; req_method := method;
          req_headers := or_empty hs |} :: rest) /\
  (truthy (token (self w)) = true -> (forall t, token (self w) <> VStr t) ->
     api_call path method hs w = (Raise TypeError, w)).
Proof.
  repeat split.
  - intros t Htok Ht. apply api_call_first_sent.
    unfold with_token. rewrite Htok. cbn [truthy].
    now rewrite (eqb_empty_false _ Ht).
  - intros Htok. apply api_call_first_sent.
    unfold with_token. now destruct Htok as [-> | ->].
  - intros Htrue Hnot. unfold api_call. rewrite bind_get_self.
    unfold with_token. rewrite Htrue. unfold authorize, str_add.
    destruct (token (self w)) as [| | |t| |]; try reflexivity.
    now destruct (Hnot t).
Qed.

(** X6: a token document whose [token] is no string: [get_token] stores it, the
    [Authorization] header cannot be built, and the call raises [TypeError]
    after two requests, without the retry. *)
Theorem api_call_token_not_a_string path method hs w hs' r net1 auth rest
    realm service scope r1 net2 doc tok :
  with_token (token (self w)) (or_empty hs) = Ok hs' ->
  serve (net w)
    {| req_url := url (self w) +++ path; req_method := method; req_headers := hs' |}
    = (r, net1) ->
  status r = 401%Z ->
  getheader (reply_headers r) "WWW-Authenticate" = Some auth ->
  search_bearer auth = Some rest ->
  dict_get String.eqb "realm" (challenge_dict (findall_pairs rest)) = Some realm ->
  dict_get String.eqb "service" (challenge_dict (findall_pairs rest)) = Some service ->
  dict_get String.eqb "scope" (challenge_dict (findall_pairs rest)) = Some scope ->
  serve net1 (token_request realm service scope) = (r1, net2) ->
  status r1 = 200%Z ->
  json_loads (payload r1) = Some doc ->
  getitem doc "token" = Ok tok ->
  (forall t, tok <> VStr t) ->
  api_call path method hs w =
  (Raise TypeError,
   {| self := {| url := url (self w); token := tok |};
      net := net2;
      sent := sent w ++
              [{| req_url := url (self w) +++ path; req_method := method;
                  req_headers := hs' |};
               token_request realm service scope];
      stdout := stdout w |}).
Proof.
  intros Hhs Hserve H401 Hauth Hsearch Hrealm Hservice Hscope Hserve1 H200
    Hjson Htok Hnot.
  rewrite (api_call_401 _ _ _ _ _ _ _ Hhs Hserve H401).
  set (rq0 := {| req_url := url (self w) +++ path; req_method := method;
                 req_headers := hs' |}).
  rewrite (refresh_and_retry_challenge path method hs' (received rq0 r)
             (after w rq0 net1) auth rest realm service scope H401 Hauth Hsearch
             Hrealm Hservice Hscope).
  rewrite (bind_Ok _ _ _ _ _
             (get_token_Ok realm service scope (after w rq0 net1) r1 net2 doc
                tok Hserve1 H200 Hjson Htok)).
  rewrite bind_get_self. cbn [self token url after sent stdout].
  unfold authorize, str_add.
  destruct tok as [| | |t| |]; try (rewrite bind_lift_Raise, <- app_assoc; reflexivity).
  now destruct (Hnot t).
Qed.

(** ** [list_tags] and [get_manifests_list_digest] *)

Lemma api_call_success path method hs w hs' r net' :
  with_token (token (self w)) (or_empty hs) = Ok hs' ->
  serve (net w)
    {| req_url := url (self w) +++ path; req_method := method; req_headers := hs' |}
    = (r, net') ->
  ((200 <=? status r) && (status r <? 300))%Z = true ->
  api_call path method hs w =
  (Ok (received {| req_url := url (self w) +++ path; req_method := method;
                   req_headers := hs' |} r),
   after w {| req_url := url (self w) +++ path; req_method := method;
              req_headers := hs' |} net').
Proof.
  intros Hhs Hserve H2xx.
  rewrite (api_call_run _ _ _ _ _ _ _ Hhs Hserve).
  unfold outcome. now rewrite H2xx.
Qed.

(** X7: on a 2xx answer [list_tags] has sent one [GET] for [/v2/name/tags/list]
    and returns the [tags] member of the body: a body that is no JSON raises
    [ValueError], a document without [tags] raises [KeyError], a document
    that is no object raises [TypeError]. *)
Theorem list_tags_reads_tags name w hs' r net' :
  with_token (token (self w)) [] = Ok hs' ->
  serve (net w)
    {| req_url := url (self w) +++ "/v2/" +++ name +++ "/tags/list";
       req_method := "GET"; req_headers := hs' |} = (r, net') ->
  ((200 <=? status r) && (status r <? 300))%Z = true ->
  list_tags name w =
  (match json_loads (payload r) with
   | None => Raise ValueError
   | Some (VDict d) =>
       match dict_get String.eqb "tags" d with
       | Some tags => Ok tags
       | None => Raise (KeyError (Some "tags"))
       end
   | Some _ => Raise TypeError
   end,
   after w {| req_url := url (self w) +++ "/v2/" +++ name +++ "/tags/list";
              req_method := "GET"; req_headers := hs' |} net').
Proof.
  intros Hhs Hserve H2xx. unfold list_tags.
  rewrite (bind_Ok _ _ _ _ _
             (api_call_success ("/v2/" +++ name +++ "/tags/list") "GET" None w
                hs' r net' Hhs Hserve H2xx)).
  unfold json_load. cbn [received fp].
  destruct (json_loads (payload r)) as [doc|]; [|reflexivity].
  rewrite bind_lift_Ok. unfold lift, getitem.
  destruct doc; reflexivity.
Qed.

(** X8: on a 2xx answer [get_manifests_list_digest] has sent one [HEAD] for
    [/v2/name/manifests/ref] that accepts the manifest-list type, and
    returns the [Docker-Content-Digest] header of the answer; an answer
    without that header is no error, the result is [None]. *)
Theorem get_manifests_list_digest_reads_header name ref w hs' r net' :
  with_token (token (self w)) [("Accept", manifest_list_type)] = Ok hs' ->
  serve (net w)
    {| req_url := url (self w) +++ "/v2/" +++ name +++ "/manifests/" +++ str ref;
       req_method := "HEAD"; req_headers := hs' |} = (r, net') ->
  ((200 <=? status r) && (status r <? 300))%Z = true ->
  get_manifests_list_digest name ref w =
  (Ok (getheader (reply_headers r) "Docker-Content-Digest"),
   after w {| req_url := url (self w) +++ "/v2/" +++ name +++ "/manifests/" +++ str ref;
              req_method := "HEAD"; req_headers := hs' |} net') /\
  dict_get String.eqb "Accept" hs' = Some manifest_list_type.
Proof.
  intros Hhs Hserve H2xx. split.
  - unfold get_manifests_list_digest.
    rewrite (bind_Ok _ _ _ _ _
               (api_call_success ("/v2/" +++ name +++ "/manifests/" +++ str ref)
                  "HEAD" (Some [("Accept", manifest_list_type)]) w hs' r net'
                  Hhs Hserve H2xx)).
    reflexivity.
  - unfold with_token, authorize in Hhs.
    destruct (truthy (token (self w))).
    + destruct (str_add "Bearer " (token (self w))) as [auth|e]; [|discriminate].
      injection Hhs as <-. reflexivity.
    + injection Hhs as <-. reflexivity.
Qed.

(** ** The grouping as a partition of the tags *)

Lemma NoDup_first_occurrences l : NoDup (first_occurrences l).
Proof.
  induction l as [|x l IH]; simpl; constructor.
  - intros Hin. apply filter_In in Hin as [_ Hx].
    now rewrite digest_eqb_refl in Hx.
  - now apply NoDup_filter.
Qed.

Lemma concat_setdefault_append d tag images :
  Permutation (concat (map snd (setdefault_append d tag images)))
              (concat (map snd images) ++ [tag]).
Proof.
  induction images as [|[k tags] rest IH]; simpl; [reflexivity|].
  destruct (digest_eqb d k); simpl.
  - rewrite <- !app_assoc. apply Permutation_app_head, Permutation_app_comm.
  - rewrite <- app_assoc. now apply Permutation_app_head.
Qed.

Lemma nonempty_setdefault_append d tag images :
  Forall (fun kv => snd kv <> []) images ->
  Forall (fun kv => snd kv <> []) (setdefault_append d tag images).
Proof.
  induction images as [|[k tags] rest IH]; simpl; intros H.
  - constructor; [discriminate|constructor].
  - inversion H as [|? ? Hk Hrest]; subst.
    destruct (digest_eqb d k); constructor; try assumption.
    + cbn. now destruct tags.
    + now apply IH.
Qed.

Lemma group_tags_partition ps :
  NoDup (keys (group_tags ps)) /\
  Forall (fun kv => snd kv <> []) (group_tags ps) /\
  Permutation (concat (map snd (group_tags ps))) (map fst ps).
Proof.
  split; [rewrite keys_group_tags; apply NoDup_first_occurrences|].
  induction ps as [|p ps [IHne IHperm]] using rev_ind.
  - split; [constructor|reflexivity].
  - rewrite group_tags_snoc, map_app. split.
    + now apply nonempty_setdefault_append.
    + etransitivity; [apply concat_setdefault_append|].
      now apply Permutation_app_tail.
Qed.

(** X9: the map [list_images] returns is a partition of the tag list: no digest
    is a key twice, no group is empty, and the groups together hold the tags
    [list_tags] returned, each as often as it is listed. *)
Theorem list_images_partitions_tags name w images w' :
  list_images name w = (Ok images, w') ->
  NoDup (keys images) /\
  Forall (fun kv => snd kv <> []) images /\
  exists tags w1 items,
    list_tags name w = (Ok tags, w1) /\
    iter tags = Ok items /\
    Permutation (concat (map snd images)) items.
Proof.
  unfold list_images. intros Hrun.
  destruct (list_tags name w) as [[tags|e] w1] eqn:Htags.
  2:{ rewrite (bind_Raise _ _ _ _ _ Htags) in Hrun. discriminate. }
  rewrite (bind_Ok _ _ _ _ _ Htags) in Hrun.
  destruct (iter tags) as [items|e] eqn:Hiter; [|discriminate].
  rewrite bind_lift_Ok, list_images_loop_resolve in Hrun.
  pose proof (resolve_all_tags name items w1) as Hfst.
  destruct (resolve_all name items w1) as [[ps|e] w2] eqn:Hres.
  2:{ rewrite (bind_Raise _ _ _ _ _ Hres) in Hrun. discriminate. }
  rewrite (bind_Ok _ _ _ _ _ Hres) in Hrun. injection Hrun as <- <-.
  change (fold_left group_step ps []) with (group_tags ps).
  destruct (group_tags_partition ps) as (Hnd & Hne & Hperm).
  split; [exact Hnd|]. split; [exact Hne|].
  exists tags, w1, items. split; [reflexivity|]. split; [exact Hiter|].
  now rewrite <- Hfst.
Qed.

(** ** One request per tag *)

Section NoChallenge.

Hypothesis never_401 : forall s rq, status (fst (serve s rq)) <> 401%Z.

Lemma api_call_Ok_one_request path method hs w resp w' :
  api_call path method hs w = (Ok resp, w') ->
  self w' = self w /\ length (sent w') = S (length (sent w)).
Proof.
  intros Hrun.
  destruct (with_token (token (self w)) (or_empty hs)) as [hs'|e] eqn:Hhs.
  - destruct (serve (net w)
                {| req_url := url (self w) +++ path; req_method := method;
                   req_headers := hs' |}) as [r net'] eqn:Hserve.
    assert (Hstatus : status r <> 401%Z).
    { pose proof (never_401 (net w)
                    {| req_url := url (self w) +++ path; req_method := method;
                       req_headers := hs' |}) as H.
      now rewrite Hserve in H. }
    rewrite (api_call_not_401 _ _ _ _ _ _ _ Hhs Hserve Hstatus) in Hrun.
    injection Hrun as _ <-. cbn [after self sent].
    split; [reflexivity|]. rewrite length_app. cbn. lia.
  - unfold api_call in Hrun.
    rewrite bind_get_self, Hhs, bind_lift_Raise in Hrun. discriminate.
Qed.

Lemma list_images_loop_count name items images w images' w' :
  list_images_loop name items images w = (Ok images', w') ->
  self w' = self w /\
  length (sent w') = length (sent w) + length items /\
  length (concat (map snd images')) =
    length (concat (map snd images)) + length items.
Proof.
  revert images w. induction items as [|tag rest IH]; intros images w; simpl.
  - unfold ret. intros H. injection H as <- <-.
    split; [reflexivity|]. split; lia.
  - intros Hrun. unfold get_manifests_list_digest in Hrun.
    rewrite bind_assoc in Hrun.
    destruct (api_call ("/v2/" +++ name +++ "/manifests/" +++ str tag) "HEAD"
                (Some [("Accept", manifest_list_type)]) w)
      as [[resp|e] w1] eqn:Hcall.
    2:{ rewrite (bind_Raise _ _ _ _ _ Hcall) in Hrun. discriminate. }
    rewrite (bind_Ok _ _ _ _ _ Hcall) in Hrun.
    unfold bind at 1 in Hrun. unfold ret at 1 in Hrun.
    destruct (api_call_Ok_one_request _ _ _ _ _ _ Hcall) as [Hself Hsent].
    destruct (IH _ _ Hrun) as (Hself' & Hsent' & Hcount).
    rewrite Hself', Hsent', Hcount, Hsent, Hself.
    rewrite (Permutation_length (concat_setdefault_append _ _ _)), length_app.
    cbn. split; [reflexivity|]. split; lia.
Qed.

(** X10: against a server that never answers 401, a run of [list_images] that
    returns has sent one request for the tag list and one for every tag in
    the map it returns, and has left the registry object as it was. *)
Theorem list_images_one_request_per_tag name w images w' :
  list_images name w = (Ok images, w') ->
  self w' = self w /\
  length (sent w') = length (sent w) + 1 + length (concat (map snd images)).
Proof.
  unfold list_images, list_tags. intros Hrun. rewrite !bind_assoc in Hrun.
  destruct (api_call ("/v2/" +++ name +++ "/tags/list") "GET" None w)
    as [[resp|e] w1] eqn:Hcall.
  2:{ rewrite (bind_Raise _ _ _ _ _ Hcall) in Hrun. discriminate. }
  rewrite (bind_Ok _ _ _ _ _ Hcall), bind_assoc in Hrun.
  destruct (json_load resp) as [doc|e]; [|discriminate].
  rewrite bind_lift_Ok in Hrun.
  destruct (getitem doc "tags") as [tags|e]; [|discriminate].
  rewrite bind_lift_Ok in Hrun.
  destruct (iter tags) as [items|e]; [|discriminate].
  rewrite bind_lift_Ok in Hrun.
  destruct (api_call_Ok_one_request _ _ _ _ _ _ Hcall) as [Hself Hsent].
  destruct (list_images_loop_count _ _ _ _ _ _ Hrun) as (Hself' & Hsent' & Hcount).
  rewrite Hself', Hsent', Hcount, Hsent, Hself. cbn. split; [reflexivity|lia].
Qed.

End NoChallenge.

(** ** The output of [--all] *)

(** A group as [list_images] files it when the digest header was there and
    the tags are strings, and the line printed for it. *)
Definition typed_group (g : string * list string) : option string * list value :=
  (Some (fst g), map VStr (snd g)).

Definition group_line (g : string * list string) : string :=
  fst g +++ ": " +++ join_str " " (snd g).

Lemma join_VStr sep names : join sep (map VStr names) = Ok (join_str sep names).
Proof.
  induction names as [|s rest IH]; [reflexivity|].
  destruct rest as [|s' rest']; [reflexivity|].
  change (join sep (map VStr (s :: s' :: rest')))
    with (match join sep (map VStr (s' :: rest')) with
          | Ok t => Ok (s +++ sep +++ t)
          | Raise e => Raise e
          end).
  now rewrite IH.
Qed.

Lemma print_images_typed groups w :
  print_images (map typed_group groups) w = (Ok tt, printed w (map group_line groups)).
Proof.
  revert w. induction groups as [|[d names] rest IH]; intros w.
  - cbn. unfold ret. now rewrite printed_nil.
  - cbn [map typed_group print_images fst snd digest_line].
    rewrite join_VStr, bind_lift_Ok.
    unfold bind at 1. unfold print at 1. rewrite IH.
    unfold printed, group_line. cbn. now rewrite <- app_assoc.
Qed.

Lemma print_images_untagged pre tags post w :
  print_images (map typed_group pre ++ (None, tags) :: post) w =
  (Raise TypeError, printed w (map group_line pre)).
Proof.
  revert w. induction pre as [|[d names] rest IH]; intros w.
  - cbn. now rewrite printed_nil.
  - cbn [map app typed_group print_images fst snd digest_line].
    rewrite join_VStr, bind_lift_Ok.
    unfold bind at 1. unfold print at 1. rewrite IH.
    unfold printed, group_line. cbn. now rewrite <- app_assoc.
Qed.

Lemma main_all_mode a s0 images w1 :
  arg_all a = true ->
  list_images (repository a) (start a s0) = (Ok images, w1) ->
  main a s0 = try_except_HTTPError (print_images images) report w1 /\
  stdout w1 = [].
Proof.
  intros Hall Himages. split.
  - unfold main, disambiguator. rewrite Hall.
    unfold try_except_HTTPError, listing.
    now rewrite (bind_Ok _ _ _ _ _ Himages).
  - apply (start_quiet a s0 _ _ _ (list_images_quiet _) Himages).
Qed.

(** X11: with [--all], when every digest header was there and every tag is a
    string, the run prints one line per digest, the digest, a colon and the
    tags separated by spaces, in the order of the map, and ends with status
    0; an empty tag list prints nothing. *)
Theorem all_mode_prints_one_line_per_digest a s0 groups w1 :
  arg_all a = true ->
  list_images (repository a) (start a s0) = (Ok (map typed_group groups), w1) ->
  main a s0 = (Ok tt, printed w1 (map group_line groups)) /\
  stdout (snd (main a s0)) = map group_line groups /\
  exit_status (fst (main a s0)) = 0%Z.
Proof.
  intros Hall Himages.
  destruct (main_all_mode a s0 _ w1 Hall Himages) as [Hmain Hout].
  assert (H : main a s0 = (Ok tt, printed w1 (map group_line groups))).
  { rewrite Hmain. unfold try_except_HTTPError.
    now rewrite print_images_typed. }
  rewrite H. repeat split. cbn. now rewrite Hout.
Qed.

(** X12: with [--all], a tag whose answer had no [Docker-Content-Digest] header
    is filed under [None], and the line of that group cannot be built: the
    run raises [TypeError] when it comes to it, after the lines of the
    groups before it were printed, and ends with status 1. *)
Theorem all_mode_stops_at_missing_digest a s0 pre tags post w1 :
  arg_all a = true ->
  list_images (repository a) (start a s0)
    = (Ok (map typed_group pre ++ (None, tags) :: post), w1) ->
  main a s0 = (Raise TypeError, printed w1 (map group_line pre)) /\
  stdout (snd (main a s0)) = map group_line pre /\
  exit_status (fst (main a s0)) = 1%Z.
Proof.
  intros Hall Himages.
  destruct (main_all_mode a s0 _ w1 Hall Himages) as [Hmain Hout].
  assert (H : main a s0 = (Raise TypeError, printed w1 (map group_line pre))).
  { rewrite Hmain. unfold try_except_HTTPError.
    now rewrite print_images_untagged. }
  rewrite H. repeat split. cbn. now rewrite Hout.
Qed.

(** ** The reference on the command line *)

Lemma contains_app sep s t :
  contains sep (s +++ t) = contains sep s || contains sep t.
Proof.
  induction s as [|c s IH]; simpl; [reflexivity|].
  now rewrite IH, orb_assoc.
Qed.

(** X13: a reference [pre:tag] without any [@], with a non-empty [tag] and no
    colon in [pre], is split at its first colon. *)
Theorem split_reference_at_first_colon pre tag :
  contains "@" (pre +++ ":" +++ tag) = false ->
  contains ":" pre = false ->
  tag <> "" ->
  split_reference (pre +++ ":" +++ tag) = (pre, tag).
Proof.
  intros Hat Hpre Htag. unfold split_reference.
  rewrite (str_partition_absent _ _ Hat). cbn [String.eqb].
  change (":" +++ tag) with (String ":" tag).
  rewrite (str_partition_found _ _ _ Hpre).
  now rewrite (eqb_empty_false _ Htag).
Qed.

(** X14: a separator with nothing after it gives the tag [latest]; a trailing
    colon is dropped from the name, a trailing [@] stays in it. *)
Theorem split_reference_trailing_separator pre :
  contains "@" pre = false ->
  contains ":" pre = false ->
  split_reference (pre +++ ":") = (pre, "latest") /\
  split_reference (pre +++ "@") = (pre +++ "@", "latest").
Proof.
  intros Hat Hcolon. unfold split_reference. split.
  - assert (H : contains "@" (pre +++ ":") = false)
      by (rewrite contains_app, Hat; reflexivity).
    rewrite (str_partition_absent _ _ H). cbn [String.eqb].
    now rewrite (str_partition_found _ _ _ Hcolon).
  - rewrite (str_partition_found _ _ _ Hat). cbn [String.eqb].
    assert (H : contains ":" (pre +++ "@") = false)
      by (rewrite contains_app, Hcolon; reflexivity).
    now rewrite (str_partition_absent _ _ H).
Qed.

(** X15: whenever a run sends a request, [--all] decides which one goes
    first: the [GET] of the tag list with it, the [HEAD] of the manifest of
    the tag or digest of the reference, which is never empty, without it.
    (Nothing is said of a run that sends nothing.) *)
Theorem run_starts_by_mode a s0 rq rest :
  sent (snd (main a s0)) = rq :: rest ->
  req_method rq = (if arg_all a then "GET" else "HEAD") /\
  req_url rq =
    arg_url a +++ "/v2/" +++ repository a +++
    (if arg_all a then "/tags/list"
     else "/manifests/" +++ snd (split_reference (arg_name a))) /\
  (if arg_all a then True else snd (split_reference (arg_name a)) <> "").
Proof.
  intros Hsent.
  destruct (main_first_request a s0) as [rest' Hrest].
  rewrite Hrest in Hsent. injection Hsent as <- _.
  unfold first_request, first_method, first_path, disambiguator.
  cbn [req_method req_url].
  destruct (arg_all a); [now repeat split|].
  pose proof (split_reference_tag_nonempty (arg_name a)) as Hne.
  destruct (snd (split_reference (arg_name a))) as [|c t]; [discriminate|].
  repeat split. discriminate.
Qed.

(** ** How a run ends *)

(** X16: the process ends with status 0 exactly when the [try] block runs to its
    end, and with status 1 whenever it raises, be the exception an
    [HTTPError] (handled, then [sys.exit(1)] or a failure of the handler)
    or any other one (not handled). *)
Theorem exit_status_is_0_or_1 a s0 :
  exit_status (fst (main a s0)) =
  match fst (listing (repository a) (disambiguator a) (start a s0)) with
  | Ok _ => 0%Z
  | Raise _ => 1%Z
  end.
Proof.
  unfold main, try_except_HTTPError.
  pose proof (never_exits_listing (repository a) (disambiguator a) (start a s0))
    as Hne.
  destruct (listing (repository a) (disambiguator a) (start a s0))
    as [[[]|e] w1]; cbn [fst] in *.
  - reflexivity.
  - destruct e; try reflexivity; [apply report_status|discriminate].
Qed.

(** X17: when the body of the error response is not empty and is no JSON, the
    handler has printed the error line only and raises [ValueError]; when it
    is a JSON object without [errors], it raises [KeyError] in the same
    way. *)
Theorem handler_fails_on_other_bodies a s0 e w1 :
  listing (repository a) (disambiguator a) (start a s0)
    = (Raise (HTTPError e), w1) ->
  fp e <> "" ->
  (json_loads (fp e) = None ->
   main a s0 = (Raise ValueError, printed w1 [str_HTTPError e])) /\
  (forall d, json_loads (fp e) = Some (VDict d) ->
             dict_get String.eqb "errors" d = None ->
   main a s0 = (Raise (KeyError (Some "errors")), printed w1 [str_HTTPError e])).
Proof.
  intros Hrun Hdata.
  assert (Hmain : main a s0 = report e w1)
    by (unfold main, try_except_HTTPError; now rewrite Hrun).
  rewrite Hmain. unfold report. rewrite (eqb_empty_false _ Hdata). cbn [negb].
  split.
  - intros Hjson. rewrite Hjson. reflexivity.
  - intros d Hjson Hnone. rewrite Hjson.
    unfold bind at 1. unfold print at 1.
    rewrite bind_assoc, bind_lift_Ok, bind_assoc. unfold getitem.
    rewrite Hnone. reflexivity.
Qed.

(** ** Reading a challenge back *)

Fixpoint all_chars (p : ascii -> bool) (s : string) : bool :=
  match s with
  | EmptyString => true
  | String c s' => p c && all_chars p s'
  end.

(** [key="value"], and the parameters of a challenge as registries write
    them. *)
Definition pair_text (key v : string) : string := key +++ "=" +++ quoted v.

Definition challenge_text (realm service scope : string) : string :=
  pair_text "realm" realm +++ "," +++ pair_text "service" service +++ "," +++
  pair_text "scope" scope.

Lemma append_assoc (s t u : string) : (s +++ t) +++ u = s +++ t +++ u.
Proof. induction s as [|c s IH]; simpl; [reflexivity | now rewrite IH]. Qed.

Lemma append_empty_r (s : string) : s +++ "" = s.
Proof. induction s as [|c s IH]; simpl; [reflexivity | now rewrite IH]. Qed.

Lemma length_append (s t : string) :
  String.length (s +++ t) = String.length s + String.length t.
Proof. induction s as [|c s IH]; simpl; [reflexivity | now rewrite IH]. Qed.

Lemma span_all p s c t :
  all_chars p s = true -> p c = false ->
  span p (s +++ String c t) = (s, String c t).
Proof.
  intros Hs Hc. induction s as [|a s IH]; simpl.
  - now rewrite Hc.
  - simpl in Hs. apply andb_true_iff in Hs as [Ha Hs].
    now rewrite Ha, (IH Hs).
Qed.

Lemma pair_text_shape key v rest :
  pair_text key v +++ rest =
  key +++ String "=" (String quote (v +++ String quote rest)).
Proof.
  unfold pair_text, quoted. rewrite append_assoc. f_equal.
  cbn. now rewrite append_assoc.
Qed.

Lemma match_pair_quoted key v rest :
  key <> "" -> all_chars is_word key = true ->
  v <> "" -> all_chars is_unquote v = true ->
  match_pair (key +++ String "=" (String quote (v +++ String quote rest))) =
  Some ((key, "", v),
        String.length key + 1 + (1 + String.length v + 1)).
Proof.
  intros Hkey Hword Hv Hunq. unfold match_pair.
  rewrite (span_all is_word key "=" _ Hword eq_refl).
  destruct key as [|k key']; [now destruct Hkey|].
  cbn [span is_bare]. change (Ascii.eqb quote quote) with true.
  change (negb (Ascii.eqb quote " " || true || Ascii.eqb quote ",")) with false.
  cbn iota.
  rewrite (span_all is_unquote v quote rest Hunq eq_refl).
  destruct v as [|c v']; [now destruct Hv|]. reflexivity.
Qed.

Lemma findall_skip u t :
  findall_from (String.length u) (u +++ t) = findall_from 0 t.
Proof. induction u as [|c u IH]; [reflexivity|exact IH]. Qed.

Lemma findall_quoted_pair key v rest :
  key <> "" -> all_chars is_word key = true ->
  v <> "" -> all_chars is_unquote v = true ->
  findall_from 0 (pair_text key v +++ rest) = (key, "", v) :: findall_from 0 rest.
Proof.
  intros Hkey Hword Hv Hunq. rewrite pair_text_shape.
  pose proof (match_pair_quoted key v rest Hkey Hword Hv Hunq) as Hmatch.
  destruct key as [|k key']; [now destruct Hkey|].
  change (findall_from 0
            (String k key' +++ String "=" (String quote (v +++ String quote rest))))
    with (match match_pair
                   (String k key' +++
                    String "=" (String quote (v +++ String quote rest))) with
          | Some (g, n) =>
              g :: findall_from (n - 1)
                     (key' +++ String "=" (String quote (v +++ String quote rest)))
          | None =>
              findall_from 0
                (key' +++ String "=" (String quote (v +++ String quote rest)))
          end).
  rewrite Hmatch. f_equal.
  replace (key' +++ String "=" (String quote (v +++ String quote rest)))
    with ((key' +++ String "=" (String quote (v +++ String quote ""))) +++ rest).
  - replace (String.length (String k key') + 1 + (1 + String.length v + 1) - 1)
      with (String.length (key' +++ String "=" (String quote (v +++ String quote "")))).
    + apply findall_skip.
    + rewrite length_append. cbn [String.length]. rewrite length_append.
      cbn [String.length]. lia.
  - rewrite append_assoc. cbn. now rewrite append_assoc.
Qed.

Lemma findall_comma rest :
  findall_from 0 (String "," rest) = findall_from 0 rest.
Proof. reflexivity. Qed.

(** X18: what [api_call] reads out of a challenge in the usual form: for
    non-empty values without a double quote (spaces and commas are fine), the
    text after [Bearer] is found and the three parameters come back as they
    were written, in their order. *)
Theorem challenge_round_trip realm service scope :
  realm <> "" -> all_chars is_unquote realm = true ->
  service <> "" -> all_chars is_unquote service = true ->
  scope <> "" -> all_chars is_unquote scope = true ->
  search_bearer ("Bearer " +++ challenge_text realm service scope)
    = Some (challenge_text realm service scope) /\
  challenge_dict (findall_pairs (challenge_text realm service scope))
    = [("realm", realm); ("service", service); ("scope", scope)].
Proof.
  intros Hr1 Hr2 Hs1 Hs2 Hc1 Hc2. split; [reflexivity|].
  unfold findall_pairs, challenge_text.
  rewrite (findall_quoted_pair "realm" realm _ ltac:(discriminate) eq_refl Hr1 Hr2).
  change ("," +++ pair_text "service" service +++ "," +++ pair_text "scope" scope)
    with (String "," (pair_text "service" service +++ "," +++ pair_text "scope" scope)).
  rewrite findall_comma.
  rewrite (findall_quoted_pair "service" service _ ltac:(discriminate) eq_refl Hs1 Hs2).
  change ("," +++ pair_text "scope" scope)
    with (String "," (pair_text "scope" scope)).
  rewrite findall_comma.
  rewrite <- (append_empty_r (pair_text "scope" scope)).
  rewrite (findall_quoted_pair "scope" scope _ ltac:(discriminate) eq_refl Hc1 Hc2).
  reflexivity.
Qed.

(** ** More sample servers

    A token endpoint that answers 204; a registry whose token document holds
    a number; the sample registry with its doors open (no request is
    answered 401); the same with one manifest answered without the digest
    header; a gateway that answers 502 with a page of HTML. *)

Definition no_content_serve (n : nat) (rq : request) : reply * nat :=
  ({| status := 204; reason := "No Content"; reply_headers := []; payload := "" |},
   S n).

Definition numeric_token_doc : string := "{" +++ quoted "token" +++ ": 5}".

Definition numeric_json_loads (s : string) : option value :=
  if s =? numeric_token_doc then Some (VDict [("token", VInt 5)]) else None.

Definition numeric_token_serve (n : nat) (rq : request) : reply * nat :=
  (if prefix "https://auth.example/token?" (req_url rq)
   then {| status := 200; reason := "OK"; reply_headers := [];
           payload := numeric_token_doc |}
   else unauthorized [("WWW-Authenticate", sample_challenge)],
   S n).

Definition open_answer (rq : request) : reply :=
  let r := sample_answer
             {| req_url := req_url rq; req_method := req_method rq;
                req_headers := dict_set String.eqb "Authorization" "Bearer sesame"
                                 (req_headers rq) |} in
  if (status r =? 401)%Z then not_found else r.

Definition open_serve (n : nat) (rq : request) : reply * nat :=
  (open_answer rq, S n).

Definition headerless_serve (n : nat) (rq : request) : reply * nat :=
  (if req_url rq =? "https://registry.example/v2/myrepo/app/manifests/latest"
   then {| status := 200; reason := "OK"; reply_headers := []; payload := "" |}
   else open_answer rq,
   S n).

Definition gateway_serve (n : nat) (rq : request) : reply * nat :=
  ({| status := 502; reason := "Bad Gateway";
      reply_headers := [("Content-Type", "text/html")];
      payload := "<html>bad gateway</html>" |},
   S n).

Lemma open_serve_never_401 s rq : status (fst (open_serve s rq)) <> 401%Z.
Proof.
  unfold open_serve, open_answer. cbn [fst].
  destruct (status (sample_answer _) =? 401)%Z eqn:E.
  - discriminate.
  - now apply Z.eqb_neq.
Qed.

End Client.

(** ** Runs against the sample registry *)

Local Abbreviation sample_api_call :=
  (api_call nat sample_serve sample_json_loads sample_quote_plus).
Local Abbreviation sample_main :=
  (main nat sample_serve sample_json_loads sample_quote_plus sample_repr).
Local Abbreviation sample_listing :=
  (listing nat sample_serve sample_json_loads sample_quote_plus sample_repr).
Local Abbreviation sample_start := (start nat).

(** C1, as stated, fails: the header [Bearer abc] holds no [key=value] pair,
    and the call raises [KeyError] for [realm] instead of the 401 error. *)
Lemma bearer_without_pairs_raises_KeyError :
  fst (sample_serve 0
         {| req_url := "https://odd.example/v2/library/nginx/tags/list";
            req_method := "GET"; req_headers := [] |})
    = unauthorized [("WWW-Authenticate", "Bearer abc")] /\
  search_bearer "Bearer abc" = Some "abc" /\
  findall_pairs "abc" = [] /\
  sample_api_call "/v2/library/nginx/tags/list" "GET" None
    (sample_start (mkArgs "nginx" true None "https://odd.example") 0)
  = (Raise (KeyError (Some "realm")),
     after nat (sample_start (mkArgs "nginx" true None "https://odd.example") 0)
       {| req_url := "https://odd.example/v2/library/nginx/tags/list";
          req_method := "GET"; req_headers := [] |} 1).
Proof. repeat split. Qed.

(** Without any [WWW-Authenticate] header the search is given [None] and
    raises [TypeError]. *)
Example absent_challenge_raises_TypeError :
  getheader (reply_headers (unauthorized [])) "WWW-Authenticate" = None /\
  fst (sample_api_call "/v2/library/nginx/tags/list" "GET" None
         (sample_start (mkArgs "nginx" true None "https://bare.example") 0))
  = Raise TypeError.
Proof. split; reflexivity. Qed.

(** C1 on a sample: a [Basic] challenge, and the 401 error comes back. *)
Lemma reraise_without_bearer_witness :
  sample_api_call "/v2/library/nginx/tags/list" "GET" None
    (sample_start (mkArgs "nginx" true None "https://basic.example") 0)
  = (Raise (HTTPError
              {| resp_url := "https://basic.example/v2/library/nginx/tags/list";
                 code := 401; msg := "Unauthorized";
                 headers := [("WWW-Authenticate", "Basic realm=" +++ quoted "registry")];
                 fp := "" |}),
     {| self := {| url := "https://basic.example"; token := VNone |};
        net := 1;
        sent := [{| req_url := "https://basic.example/v2/library/nginx/tags/list";
                    req_method := "GET"; req_headers := [] |}];
        stdout := [] |}).
Proof.
  apply (reraise_without_bearer nat sample_serve sample_json_loads
           sample_quote_plus "/v2/library/nginx/tags/list" "GET" None
           (sample_start (mkArgs "nginx" true None "https://basic.example") 0)
           []
           (unauthorized [("WWW-Authenticate", "Basic realm=" +++ quoted "registry")])
           1 ("Basic realm=" +++ quoted "registry"));
    reflexivity.
Defined.

(** C2, as stated, fails: for [myrepo/app@sha256:abcd] the run first asks the
    registry for the manifest of [sha256:abcd] (twice, a token being fetched
    in between) and only then lists the tags. *)
Lemma digest_reference_is_resolved_by_request :
  map (fun rq => (req_method rq, req_url rq))
    (sent nat
       (snd (sample_main
               (mkArgs "myrepo/app@sha256:abcd" false None "https://registry.example")
               0)))
  = [("HEAD", "https://registry.example/v2/myrepo/app/manifests/sha256:abcd");
     ("GET", "https://auth.example/token?service=registry.example&scope=repository%3Amyrepo%2Fapp%3Apull");
     ("HEAD", "https://registry.example/v2/myrepo/app/manifests/sha256:abcd");
     ("GET", "https://registry.example/v2/myrepo/app/tags/list");
     ("HEAD", "https://registry.example/v2/myrepo/app/manifests/v1");
     ("HEAD", "https://registry.example/v2/myrepo/app/manifests/latest");
     ("HEAD", "https://registry.example/v2/myrepo/app/manifests/old")].
Proof. vm_compute. reflexivity. Qed.

(** C2 on a sample: the manifest of [sha256:abcd] is asked for first, and the
    tags filed under the digest it answered are printed. *)
Lemma digest_reference_is_resolved_first_witness :
  (exists rest,
     sent nat
       (snd (sample_main
               (mkArgs "myrepo/app@sha256:abcd" false None "https://registry.example")
               0))
     = {| req_url := "https://registry.example/v2/myrepo/app/manifests/sha256:abcd";
          req_method := "HEAD";
          req_headers := [("Accept", manifest_list_type)] |} :: rest) /\
  fst (sample_main
         (mkArgs "myrepo/app@sha256:abcd" false None "https://registry.example") 0)
    = Ok tt /\
  stdout nat
    (snd (sample_main
            (mkArgs "myrepo/app@sha256:abcd" false None "https://registry.example")
            0))
    = ["v1 latest"].
Proof.
  assert (Hdig : "sha256:abcd" <> "") by discriminate.
  destruct (digest_reference_is_resolved_first nat sample_serve
              sample_json_loads sample_quote_plus sample_repr
              (mkArgs "myrepo/app@sha256:abcd" false None "https://registry.example")
              "myrepo/app" "sha256:abcd" eq_refl eq_refl Hdig eq_refl)
    as [Hfirst Hgroup].
  split; [exact (Hfirst 0)|].
  erewrite Hgroup.
  - split; reflexivity.
  - vm_compute. reflexivity.
  - vm_compute. reflexivity.
  - vm_compute. reflexivity.
  - vm_compute. reflexivity.
Defined.

(** C3 on two samples.  A registry object that holds the stale token [stale]:
    the original request carries [Bearer stale], the retry carries
    [Bearer sesame] in its place and is answered 200.  And a registry that
    says 401 whatever it is sent: three requests, and the second 401 is
    raised. *)
Lemma refresh_and_retry_once_witness :
  sample_api_call "/v2/myrepo/app/tags/list" "GET" None
    (sample_start
       (mkArgs "myrepo/app" true (Some "stale") "https://registry.example") 0)
  = (Ok {| resp_url := "https://registry.example/v2/myrepo/app/tags/list";
           code := 200; msg := "OK";
           headers := [("Content-Type", "application/json")];
           fp := tags_doc |},
     {| self := {| url := "https://registry.example"; token := VStr "sesame" |};
        net := 3;
        sent := [{| req_url := "https://registry.example/v2/myrepo/app/tags/list";
                    req_method := "GET";
                    req_headers := [("Authorization", "Bearer stale")] |};
                 {| req_url := "https://auth.example/token?service=registry.example&scope=repository%3Amyrepo%2Fapp%3Apull";
                    req_method := "GET"; req_headers := [] |};
                 {| req_url := "https://registry.example/v2/myrepo/app/tags/list";
                    req_method := "GET";
                    req_headers := [("Authorization", "Bearer sesame")] |}];
        stdout := [] |}) /\
  sample_api_call "/v2/myrepo/app/tags/list" "GET" None
    (sample_start (mkArgs "myrepo/app" true None "https://stubborn.example") 0)
  = (Raise (HTTPError
              {| resp_url := "https://stubborn.example/v2/myrepo/app/tags/list";
                 code := 401; msg := "Unauthorized";
                 headers := [("WWW-Authenticate", sample_challenge)];
                 fp := "" |}),
     {| self := {| url := "https://stubborn.example"; token := VStr "sesame" |};
        net := 3;
        sent := [{| req_url := "https://stubborn.example/v2/myrepo/app/tags/list";
                    req_method := "GET"; req_headers := [] |};
                 {| req_url := "https://auth.example/token?service=registry.example&scope=repository%3Amyrepo%2Fapp%3Apull";
                    req_method := "GET"; req_headers := [] |};
                 {| req_url := "https://stubborn.example/v2/myrepo/app/tags/list";
                    req_method := "GET";
                    req_headers := [("Authorization", "Bearer sesame")] |}];
        stdout := [] |}).
Proof.
  split.
  - apply (proj1 (proj2
             (refresh_and_retry_once nat sample_serve sample_json_loads
                sample_quote_plus "/v2/myrepo/app/tags/list" "GET" None
                (sample_start
                   (mkArgs "myrepo/app" true (Some "stale")
                      "https://registry.example") 0)
                [("Authorization", "Bearer stale")]
                (unauthorized [("WWW-Authenticate", sample_challenge)]) 1
                sample_challenge
                ("realm=" +++ quoted "https://auth.example/token" +++
                 ",service=" +++ quoted "registry.example" +++
                 ",scope=" +++ quoted "repository:myrepo/app:pull")
                "https://auth.example/token" "registry.example"
                "repository:myrepo/app:pull"
                eq_refl eq_refl eq_refl eq_refl eq_refl eq_refl eq_refl eq_refl))
             {| status := 200; reason := "OK"; reply_headers := [];
                payload := token_doc |}
             2 (VDict [("token", VStr "sesame")]) "sesame"
             {| status := 200; reason := "OK";
                reply_headers := [("Content-Type", "application/json")];
                payload := tags_doc |} 3);
      reflexivity.
  - apply (proj1 (proj2
             (refresh_and_retry_once nat sample_serve sample_json_loads
                sample_quote_plus "/v2/myrepo/app/tags/list" "GET" None
                (sample_start
                   (mkArgs "myrepo/app" true None "https://stubborn.example") 0)
                [] (unauthorized [("WWW-Authenticate", sample_challenge)]) 1
                sample_challenge
                ("realm=" +++ quoted "https://auth.example/token" +++
                 ",service=" +++ quoted "registry.example" +++
                 ",scope=" +++ quoted "repository:myrepo/app:pull")
                "https://auth.example/token" "registry.example"
                "repository:myrepo/app:pull"
                eq_refl eq_refl eq_refl eq_refl eq_refl eq_refl eq_refl eq_refl))
             {| status := 200; reason := "OK"; reply_headers := [];
                payload := token_doc |}
             2 (VDict [("token", VStr "sesame")]) "sesame"
             (unauthorized [("WWW-Authenticate", sample_challenge)]) 3);
      reflexivity.
Defined.

(** C4 on a sample: the registry lists [v1], [latest], [old]; the first two
    have the digest [sha256:abcd], the third [sha256:0000].  The lookups go
    in this order, and the map holds [sha256:abcd] before [sha256:0000],
    with [v1] before [latest]. *)
Lemma list_images_groups_in_order_witness :
  exists ps,
    resolve_all nat sample_serve sample_json_loads sample_quote_plus sample_repr
      "myrepo/app" [VStr "v1"; VStr "latest"; VStr "old"]
      (snd (list_tags nat sample_serve sample_json_loads sample_quote_plus
              "myrepo/app"
              (sample_start
                 (mkArgs "myrepo/app" true (Some "sesame")
                    "https://registry.example") 0)))
    = (Ok ps,
       snd (list_images nat sample_serve sample_json_loads sample_quote_plus
              sample_repr "myrepo/app"
              (sample_start
                 (mkArgs "myrepo/app" true (Some "sesame")
                    "https://registry.example") 0))) /\
    map fst ps = [VStr "v1"; VStr "latest"; VStr "old"] /\
    [(Some "sha256:abcd", [VStr "v1"; VStr "latest"]);
     (Some "sha256:0000", [VStr "old"])] = group_tags ps /\
    keys [(Some "sha256:abcd", [VStr "v1"; VStr "latest"]);
          (Some "sha256:0000", [VStr "old"])]
      = first_occurrences (map snd ps) /\
    forall d,
      dict_get digest_eqb d
        [(Some "sha256:abcd", [VStr "v1"; VStr "latest"]);
         (Some "sha256:0000", [VStr "old"])]
      = if has_digest d (map snd ps) then Some (tags_of d ps) else None.
Proof.
  apply (proj2 (proj2 (proj2 (proj2
           (list_images_groups_in_order nat sample_serve sample_json_loads
              sample_quote_plus sample_repr))))
           "myrepo/app"
           (sample_start
              (mkArgs "myrepo/app" true (Some "sesame")
                 "https://registry.example") 0)).
  - vm_compute. reflexivity.
  - vm_compute. reflexivity.
Defined.

(** A grouping: three tags, two digests. *)
Example group_tags_sample :
  group_tags [(VStr "v1", Some "sha256:abcd"); (VStr "old", Some "sha256:0000");
              (VStr "latest", Some "sha256:abcd")]
  = [(Some "sha256:abcd", [VStr "v1"; VStr "latest"]);
     (Some "sha256:0000", [VStr "old"])].
Proof. reflexivity. Qed.

(** [list_images] on the sample registry, the token given beforehand. *)
Example list_images_sample :
  fst (list_images nat sample_serve sample_json_loads sample_quote_plus sample_repr
         "myrepo/app"
         (sample_start
            (mkArgs "myrepo/app" true (Some "sesame") "https://registry.example") 0))
  = Ok [(Some "sha256:abcd", [VStr "v1"; VStr "latest"]);
        (Some "sha256:0000", [VStr "old"])].
Proof. vm_compute. reflexivity. Qed.

(** C5, as stated, fails: no [HTTPError] reaches the driver in this run (the
    [try] block raises [KeyError]), and the process ends with status 1. *)
Lemma status_1_without_HTTPError :
  fst (sample_listing "myrepo/app" (Some "sha256:9999")
         (sample_start
            (mkArgs "myrepo/app@sha256:9999" false None "https://registry.example")
            0))
    = Raise (KeyError (Some "sha256:9999")) /\
  fst (sample_main
         (mkArgs "myrepo/app@sha256:9999" false None "https://registry.example") 0)
    = Raise (KeyError (Some "sha256:9999")) /\
  exit_status
    (fst (sample_main
            (mkArgs "myrepo/app@sha256:9999" false None "https://registry.example")
            0))
    = 1%Z.
Proof. vm_compute. repeat split. Qed.

(** A registry that answers every request 403, with an [errors] array whose
    one entry has no [detail]. *)
Definition terse_errors_doc : string :=
  "{" +++ quoted "errors" +++ ":[{" +++ quoted "code" +++ ":" +++
  quoted "DENIED" +++ "," +++ quoted "message" +++ ":" +++
  quoted "access denied" +++ "}]}".

Definition terse_json_loads (s : string) : option value :=
  if s =? terse_errors_doc then
    Some (VDict [("errors",
                  VList [VDict [("code", VStr "DENIED");
                                ("message", VStr "access denied")]])])
  else None.

Definition terse_serve (n : nat) (rq : request) : reply * nat :=
  ({| status := 403; reason := "Forbidden";
      reply_headers := [("Content-Type", "application/json")];
      payload := terse_errors_doc |}, S n).

(** C5 on two samples: an unknown repository, answered 404 with an [errors]
    array of one entry that has a [detail]; and the registry above, whose
    entry has none. *)
Lemma http_error_is_reported_witness :
  sample_main (mkArgs "nosuch/repo" true None "https://registry.example") 0
  = (Raise (SystemExit 1),
     {| self := {| url := "https://registry.example"; token := VNone |};
        net := 1;
        sent := [{| req_url := "https://registry.example/v2/nosuch/repo/tags/list";
                    req_method := "GET"; req_headers := [] |}];
        stdout := ["HTTP Error 404: Not Found";
                   "NAME_UNKNOWN: repository not found";
                   "details: '...'"] |}) /\
  main nat terse_serve terse_json_loads sample_quote_plus sample_repr
    (mkArgs "myrepo/app" true None "https://registry.example") 0
  = (Raise (KeyError (Some "detail")),
     {| self := {| url := "https://registry.example"; token := VNone |};
        net := 1;
        sent := [{| req_url := "https://registry.example/v2/myrepo/app/tags/list";
                    req_method := "GET"; req_headers := [] |}];
        stdout := ["HTTP Error 403: Forbidden"; "DENIED: access denied"] |}).
Proof.
  assert (Hdata : errors_doc <> "") by discriminate.
  assert (Hterse : terse_errors_doc <> "") by discriminate.
  assert (Hfields :
            Forall2 has_fields
              [VDict [("code", VStr "NAME_UNKNOWN");
                      ("message", VStr "repository not found");
                      ("detail", VStr "...")]]
              [(VStr "NAME_UNKNOWN", VStr "repository not found", VStr "...")])
    by (constructor; [repeat split | constructor]).
  split.
  - destruct (http_error_is_reported nat sample_serve sample_json_loads
                sample_quote_plus sample_repr
                (mkArgs "nosuch/repo" true None "https://registry.example") 0)
      as [Hhttp _].
    destruct (Hhttp
                {| resp_url := "https://registry.example/v2/nosuch/repo/tags/list";
                   code := 404; msg := "Not Found";
                   headers := [("Content-Type", "application/json")];
                   fp := errors_doc |}
                {| self := {| url := "https://registry.example"; token := VNone |};
                   net := 1;
                   sent := [{| req_url := "https://registry.example/v2/nosuch/repo/tags/list";
                               req_method := "GET"; req_headers := [] |}];
                   stdout := [] |}
                eq_refl)
      as (_ & _ & _ & Hlines & _).
    rewrite (Hlines
               (VDict [("errors",
                        VList [VDict [("code", VStr "NAME_UNKNOWN");
                                      ("message", VStr "repository not found");
                                      ("detail", VStr "...")]])])
               (VList [VDict [("code", VStr "NAME_UNKNOWN");
                              ("message", VStr "repository not found");
                              ("detail", VStr "...")]])
               [VDict [("code", VStr "NAME_UNKNOWN");
                       ("message", VStr "repository not found");
                       ("detail", VStr "...")]]
               [(VStr "NAME_UNKNOWN", VStr "repository not found", VStr "...")]
               Hdata eq_refl eq_refl eq_refl Hfields).
    reflexivity.
  - destruct (http_error_is_reported nat terse_serve terse_json_loads
                sample_quote_plus sample_repr
                (mkArgs "myrepo/app" true None "https://registry.example") 0)
      as [Hhttp _].
    destruct (Hhttp
                {| resp_url := "https://registry.example/v2/myrepo/app/tags/list";
                   code := 403; msg := "Forbidden";
                   headers := [("Content-Type", "application/json")];
                   fp := terse_errors_doc |}
                {| self := {| url := "https://registry.example"; token := VNone |};
                   net := 1;
                   sent := [{| req_url := "https://registry.example/v2/myrepo/app/tags/list";
                               req_method := "GET"; req_headers := [] |}];
                   stdout := [] |}
                eq_refl)
      as (_ & _ & _ & _ & Hstops).
    rewrite (Hstops
               (VDict [("errors",
                        VList [VDict [("code", VStr "DENIED");
                                      ("message", VStr "access denied")]])])
               (VList [VDict [("code", VStr "DENIED");
                              ("message", VStr "access denied")]])
               [VDict [("code", VStr "DENIED");
                       ("message", VStr "access denied")]]
               [] []
               (VDict [("code", VStr "DENIED");
                       ("message", VStr "access denied")])
               (VStr "DENIED") (VStr "access denied")
               (KeyError (Some "detail")) []
               Hterse eq_refl eq_refl eq_refl eq_refl (Forall2_nil _)
               eq_refl eq_refl eq_refl).
    reflexivity.
Defined.

(** C6 on a sample: a digest after a name that holds two colons. *)
Lemma digest_takes_precedence_witness :
  split_reference "registry:5000/app:1.0@sha256:abcd"
    = ("registry:5000/app:1.0", "sha256:abcd") /\
  disambiguator (mkArgs "registry:5000/app:1.0@sha256:abcd" false None "u")
    = Some "sha256:abcd".
Proof.
  assert (Hdig : "sha256:abcd" <> "") by discriminate.
  destruct (digest_takes_precedence
              (mkArgs "registry:5000/app:1.0@sha256:abcd" false None "u")
              "registry:5000/app:1.0" "sha256:abcd" eq_refl eq_refl Hdig)
    as [Hsplit Htag].
  split; [exact Hsplit | exact (Htag eq_refl)].
Defined.

(** C7 on a sample. *)
Lemma default_tag_is_latest_witness :
  split_reference "nginx" = ("nginx", "latest").
Proof. apply (default_tag_is_latest "nginx"); reflexivity. Defined.

(** C8 on two samples. *)
Lemma library_prefix_for_all_calls_witness :
  library_prefix "nginx" = "library/nginx" /\
  library_prefix "myrepo/app" = "myrepo/app".
Proof.
  destruct (library_prefix_for_all_calls nat sample_serve sample_json_loads
              sample_quote_plus sample_repr) as (Hbare & Hslash & _).
  split; [apply (Hbare "nginx") | apply (Hslash "myrepo/app")]; reflexivity.
Defined.

(** C9 on a sample: a challenge with a [realm] and nothing else. *)
Lemma missing_challenge_key_raises_KeyError_witness :
  exists k,
    first_missing
      (challenge_dict
         (findall_pairs
            (snd (span is_space ("realm=" +++ quoted "https://auth.example/token")))))
      = Some k /\
    sample_main (mkArgs "nginx" false None "https://partial.example") 0
    = (Raise (KeyError (Some k)),
       after nat
         (sample_start (mkArgs "nginx" false None "https://partial.example") 0)
         (first_request (mkArgs "nginx" false None "https://partial.example")) 1) /\
    stdout nat
      (snd (sample_main (mkArgs "nginx" false None "https://partial.example") 0))
      = [] /\
    exit_status
      (fst (sample_main (mkArgs "nginx" false None "https://partial.example") 0))
      = 1%Z.
Proof.
  apply (proj1 (proj2 (missing_challenge_key_raises_KeyError nat sample_serve
                         sample_json_loads sample_quote_plus sample_repr))
           (mkArgs "nginx" false None "https://partial.example") 0
           (unauthorized
              [("WWW-Authenticate",
                "Bearer realm=" +++ quoted "https://auth.example/token")])
           1 ("realm=" +++ quoted "https://auth.example/token")
           eq_refl eq_refl eq_refl (or_intror (or_introl eq_refl))).
Defined.

(** C10 on a sample: a digest the registry knows and no tag points to. *)
Lemma unlisted_digest_raises_KeyError_witness :
  fst (sample_main
         (mkArgs "myrepo/app@sha256:9999" false None "https://registry.example") 0)
    = Raise (KeyError (Some "sha256:9999")) /\
  stdout nat
    (snd (sample_main
            (mkArgs "myrepo/app@sha256:9999" false None "https://registry.example")
            0))
    = [] /\
  exit_status
    (fst (sample_main
            (mkArgs "myrepo/app@sha256:9999" false None "https://registry.example")
            0))
    = 1%Z.
Proof.
  edestruct (unlisted_digest_raises_KeyError nat sample_serve sample_json_loads
               sample_quote_plus sample_repr
               (mkArgs "myrepo/app@sha256:9999" false None "https://registry.example")
               0 (Some "sha256:9999"))
    as (Hmain & Hout & Hstatus).
  - reflexivity.
  - vm_compute. reflexivity.
  - vm_compute. reflexivity.
  - vm_compute. reflexivity.
  - rewrite Hmain. repeat split.
Defined.

(** ** Further runs against the sample servers *)

(** A token endpoint that answers 404: the token given on the command line
    is still there. *)
Lemma get_token_failure_keeps_token_witness :
  self nat
    (snd (get_token nat sample_serve sample_json_loads sample_quote_plus
            "https://nowhere.example/token" "registry.example" "pull"
            (sample_start
               (mkArgs "myrepo/app" true (Some "sesame") "https://registry.example")
               0)))
  = {| url := "https://registry.example"; token := VStr "sesame" |} /\
  sent nat
    (snd (get_token nat sample_serve sample_json_loads sample_quote_plus
            "https://nowhere.example/token" "registry.example" "pull"
            (sample_start
               (mkArgs "myrepo/app" true (Some "sesame") "https://registry.example")
               0)))
  = [{| req_url := "https://nowhere.example/token?service=registry.example&scope=pull";
        req_method := "GET"; req_headers := [] |}].
Proof.
  edestruct (get_token_failure_keeps_token nat sample_serve sample_json_loads
               sample_quote_plus "https://nowhere.example/token"
               "registry.example" "pull"
               (sample_start
                  (mkArgs "myrepo/app" true (Some "sesame")
                     "https://registry.example") 0))
    as (Hself & Hsent & _).
  - vm_compute. reflexivity.
  - split; [exact Hself | exact Hsent].
Defined.

(** A token endpoint that answers 204. *)
Lemma get_token_rejects_other_status_witness :
  exists e,
    get_token nat no_content_serve sample_json_loads sample_quote_plus
      "https://auth.example/token" "registry.example" "pull"
      (sample_start (mkArgs "myrepo/app" true None "https://registry.example") 0)
    = (Raise (HTTPError e),
       after nat
         (sample_start (mkArgs "myrepo/app" true None "https://registry.example") 0)
         (token_request sample_quote_plus "https://auth.example/token"
            "registry.example" "pull") 1) /\
    code e = 204%Z /\
    msg e = "Could not get auth token".
Proof.
  assert (Hstatus : 204%Z <> 200%Z) by discriminate.
  destruct (get_token_rejects_other_status nat no_content_serve
              sample_json_loads sample_quote_plus "https://auth.example/token"
              "registry.example" "pull"
              (sample_start
                 (mkArgs "myrepo/app" true None "https://registry.example") 0)
              {| status := 204; reason := "No Content"; reply_headers := [];
                 payload := "" |} 1 eq_refl Hstatus)
    as (e & Hrun & _ & Hcode & _ & _ & Hmsg).
  exists e. split; [exact Hrun|]. split; [exact Hcode | exact Hmsg].
Defined.

(** An unknown repository: the 404 comes back after one request. *)
Lemma api_call_without_challenge_witness :
  sample_api_call "/v2/nosuch/repo/tags/list" "GET" None
    (sample_start (mkArgs "nosuch/repo" true None "https://registry.example") 0)
  = (Raise (HTTPError
              {| resp_url := "https://registry.example/v2/nosuch/repo/tags/list";
                 code := 404; msg := "Not Found";
                 headers := [("Content-Type", "application/json")];
                 fp := errors_doc |}),
     {| self := {| url := "https://registry.example"; token := VNone |};
        net := 1;
        sent := [{| req_url := "https://registry.example/v2/nosuch/repo/tags/list";
                    req_method := "GET"; req_headers := [] |}];
        stdout := [] |}).
Proof.
  assert (Hstatus : status not_found <> 401%Z) by discriminate.
  exact (proj1 (api_call_without_challenge nat sample_serve sample_json_loads
                  sample_quote_plus "/v2/nosuch/repo/tags/list" "GET" None
                  (sample_start
                     (mkArgs "nosuch/repo" true None "https://registry.example") 0)
                  [] not_found 1 eq_refl eq_refl Hstatus)).
Defined.

(** A token given on the command line goes out on the first request. *)
Lemma api_call_presents_token_witness :
  exists rest,
    sent nat
      (snd (sample_api_call "/v2/myrepo/app/manifests/v1" "HEAD"
              (Some [("Accept", manifest_list_type)])
              (sample_start
                 (mkArgs "myrepo/app:v1" false (Some "sesame")
                    "https://registry.example") 0)))
    = [] ++
      {| req_url := "https://registry.example/v2/myrepo/app/manifests/v1";
         req_method := "HEAD";
         req_headers := [("Accept", manifest_list_type);
                         ("Authorization", "Bearer sesame")] |} :: rest.
Proof.
  assert (Ht : "sesame" <> "") by discriminate.
  exact (proj1 (api_call_presents_token nat sample_serve sample_json_loads
                  sample_quote_plus "/v2/myrepo/app/manifests/v1" "HEAD"
                  (Some [("Accept", manifest_list_type)])
                  (sample_start
                     (mkArgs "myrepo/app:v1" false (Some "sesame")
                        "https://registry.example") 0))
           "sesame" eq_refl Ht).
Defined.

(** A token document that holds the number 5. *)
Lemma api_call_token_not_a_string_witness :
  api_call nat numeric_token_serve numeric_json_loads sample_quote_plus
    "/v2/myrepo/app/tags/list" "GET" None
    (sample_start (mkArgs "myrepo/app" true None "https://registry.example") 0)
  = (Raise TypeError,
     {| self := {| url := "https://registry.example"; token := VInt 5 |};
        net := 2;
        sent := [] ++
                [{| req_url := "https://registry.example/v2/myrepo/app/tags/list";
                    req_method := "GET"; req_headers := [] |};
                 token_request sample_quote_plus "https://auth.example/token"
                   "registry.example" "repository:myrepo/app:pull"];
        stdout := [] |}).
Proof.
  assert (Hnot : forall t, VInt 5 <> VStr t) by discriminate.
  exact (api_call_token_not_a_string nat numeric_token_serve numeric_json_loads
           sample_quote_plus "/v2/myrepo/app/tags/list" "GET" None
           (sample_start
              (mkArgs "myrepo/app" true None "https://registry.example") 0)
           [] (unauthorized [("WWW-Authenticate", sample_challenge)]) 1
           sample_challenge
           ("realm=" +++ quoted "https://auth.example/token" +++
            ",service=" +++ quoted "registry.example" +++
            ",scope=" +++ quoted "repository:myrepo/app:pull")
           "https://auth.example/token" "registry.example"
           "repository:myrepo/app:pull"
           {| status := 200; reason := "OK"; reply_headers := [];
              payload := numeric_token_doc |}
           2 (VDict [("token", VInt 5)]) (VInt 5)
           eq_refl eq_refl eq_refl eq_refl eq_refl eq_refl eq_refl eq_refl
           eq_refl eq_refl eq_refl eq_refl Hnot).
Defined.

(** The tag list of the sample registry. *)
Lemma list_tags_reads_tags_witness :
  fst (list_tags nat sample_serve sample_json_loads sample_quote_plus "myrepo/app"
         (sample_start
            (mkArgs "myrepo/app" true (Some "sesame") "https://registry.example")
            0))
  = Ok (VList [VStr "v1"; VStr "latest"; VStr "old"]).
Proof.
  rewrite (list_tags_reads_tags nat sample_serve sample_json_loads
             sample_quote_plus "myrepo/app"
             (sample_start
                (mkArgs "myrepo/app" true (Some "sesame")
                   "https://registry.example") 0)
             [("Authorization", "Bearer sesame")]
             {| status := 200; reason := "OK";
                reply_headers := [("Content-Type", "application/json")];
                payload := tags_doc |} 1 eq_refl eq_refl eq_refl).
  reflexivity.
Defined.

(** A manifest answered without the digest header: the digest is [None]. *)
Lemma get_manifests_list_digest_reads_header_witness :
  fst (get_manifests_list_digest nat headerless_serve sample_json_loads
         sample_quote_plus sample_repr "myrepo/app" (VStr "latest")
         (sample_start (mkArgs "myrepo/app" true None "https://registry.example") 0))
  = Ok None.
Proof.
  rewrite (proj1 (get_manifests_list_digest_reads_header nat headerless_serve
                    sample_json_loads sample_quote_plus sample_repr "myrepo/app"
                    (VStr "latest")
                    (sample_start
                       (mkArgs "myrepo/app" true None "https://registry.example")
                       0)
                    [("Accept", manifest_list_type)]
                    {| status := 200; reason := "OK"; reply_headers := [];
                       payload := "" |} 1 eq_refl eq_refl eq_refl)).
  reflexivity.
Defined.

(** The grouping of the sample registry is a partition of its three tags. *)
Lemma list_images_partitions_tags_witness :
  NoDup (keys [(Some "sha256:abcd", [VStr "v1"; VStr "latest"]);
               (Some "sha256:0000", [VStr "old"])]) /\
  Permutation
    (concat (map snd [(Some "sha256:abcd", [VStr "v1"; VStr "latest"]);
                      (Some "sha256:0000", [VStr "old"])]))
    [VStr "v1"; VStr "latest"; VStr "old"].
Proof.
  edestruct (list_images_partitions_tags nat sample_serve sample_json_loads
               sample_quote_plus sample_repr "myrepo/app"
               (sample_start
                  (mkArgs "myrepo/app" true (Some "sesame")
                     "https://registry.example") 0))
    as (Hnodup & _ & tags & w1 & items & Htags & Hiter & Hperm).
  - vm_compute. reflexivity.
  - vm_compute in Htags. injection Htags as <- _.
    vm_compute in Hiter. injection Hiter as <-.
    split; [exact Hnodup | exact Hperm].
Defined.

(** Three tags, four requests. *)
Lemma list_images_one_request_per_tag_witness :
  length
    (sent nat
       (snd (list_images nat open_serve sample_json_loads sample_quote_plus
               sample_repr "myrepo/app"
               (sample_start
                  (mkArgs "myrepo/app" true None "https://registry.example") 0))))
  = 4.
Proof.
  edestruct (list_images_one_request_per_tag nat open_serve sample_json_loads
               sample_quote_plus sample_repr open_serve_never_401 "myrepo/app"
               (sample_start
                  (mkArgs "myrepo/app" true None "https://registry.example") 0))
    as [_ Hsent].
  - vm_compute. reflexivity.
  - exact Hsent.
Defined.

(** [--all] on the sample registry. *)
Lemma all_mode_prints_one_line_per_digest_witness :
  stdout nat
    (snd (sample_main (mkArgs "myrepo/app" true None "https://registry.example") 0))
  = ["sha256:abcd: v1 latest"; "sha256:0000: old"] /\
  exit_status
    (fst (sample_main (mkArgs "myrepo/app" true None "https://registry.example") 0))
  = 0%Z.
Proof.
  edestruct (all_mode_prints_one_line_per_digest nat sample_serve
               sample_json_loads sample_quote_plus sample_repr
               (mkArgs "myrepo/app" true None "https://registry.example") 0
               [("sha256:abcd", ["v1"; "latest"]); ("sha256:0000", ["old"])])
    as (_ & Hout & Hstatus).
  - reflexivity.
  - vm_compute. reflexivity.
  - split; [exact Hout | exact Hstatus].
Defined.

(** [--all] when the manifest of [latest] comes without its digest. *)
Lemma all_mode_stops_at_missing_digest_witness :
  fst (main nat headerless_serve sample_json_loads sample_quote_plus sample_repr
         (mkArgs "myrepo/app" true None "https://registry.example") 0)
  = Raise TypeError /\
  stdout nat
    (snd (main nat headerless_serve sample_json_loads sample_quote_plus sample_repr
            (mkArgs "myrepo/app" true None "https://registry.example") 0))
  = ["sha256:abcd: v1"].
Proof.
  edestruct (all_mode_stops_at_missing_digest nat headerless_serve
               sample_json_loads sample_quote_plus sample_repr
               (mkArgs "myrepo/app" true None "https://registry.example") 0
               [("sha256:abcd", ["v1"])] [VStr "latest"]
               [(Some "sha256:0000", [VStr "old"])])
    as (Hmain & Hout & _).
  - reflexivity.
  - vm_compute. reflexivity.
  - split; [now rewrite Hmain | exact Hout].
Defined.

(** A registry with a port and no tag: the port is taken for the tag. *)
Lemma split_reference_at_first_colon_witness :
  split_reference "registry:5000/app" = ("registry", "5000/app").
Proof.
  assert (Htag : "5000/app" <> "") by discriminate.
  exact (split_reference_at_first_colon "registry" "5000/app" eq_refl eq_refl Htag).
Defined.

Lemma split_reference_trailing_separator_witness :
  split_reference "nginx:" = ("nginx", "latest") /\
  split_reference "nginx@" = ("nginx@", "latest").
Proof. exact (split_reference_trailing_separator "nginx" eq_refl eq_refl). Defined.

(** X15 on a sample: [nginx] without [--all] starts with the [HEAD] of the
    manifest of [latest] in [library/nginx] (which this registry does not
    know, so that the run ends there). *)
Lemma run_starts_by_mode_witness :
  sent nat
    (snd (sample_main (mkArgs "nginx" false None "https://registry.example") 0))
  = [{| req_url := "https://registry.example/v2/library/nginx/manifests/latest";
        req_method := "HEAD";
        req_headers := [("Accept", manifest_list_type)] |}] /\
  req_method
    {| req_url := "https://registry.example/v2/library/nginx/manifests/latest";
       req_method := "HEAD";
       req_headers := [("Accept", manifest_list_type)] |} = "HEAD" /\
  req_url
    {| req_url := "https://registry.example/v2/library/nginx/manifests/latest";
       req_method := "HEAD";
       req_headers := [("Accept", manifest_list_type)] |}
    = "https://registry.example" +++ "/v2/" +++ "library/nginx" +++
      "/manifests/" +++ "latest" /\
  "latest" <> "".
Proof.
  split; [reflexivity|].
  exact (run_starts_by_mode nat sample_serve sample_json_loads sample_quote_plus
           sample_repr (mkArgs "nginx" false None "https://registry.example") 0
           {| req_url := "https://registry.example/v2/library/nginx/manifests/latest";
              req_method := "HEAD";
              req_headers := [("Accept", manifest_list_type)] |}
           [] eq_refl).
Defined.

(** A gateway that answers with a page of HTML. *)
Lemma handler_fails_on_other_bodies_witness :
  fst (main nat gateway_serve sample_json_loads sample_quote_plus sample_repr
         (mkArgs "myrepo/app" true None "https://registry.example") 0)
  = Raise ValueError /\
  stdout nat
    (snd (main nat gateway_serve sample_json_loads sample_quote_plus sample_repr
            (mkArgs "myrepo/app" true None "https://registry.example") 0))
  = ["HTTP Error 502: Bad Gateway"].
Proof.
  assert (Hdata : "<html>bad gateway</html>" <> "") by discriminate.
  destruct (handler_fails_on_other_bodies nat gateway_serve sample_json_loads
              sample_quote_plus sample_repr
              (mkArgs "myrepo/app" true None "https://registry.example") 0
              {| resp_url := "https://registry.example/v2/myrepo/app/tags/list";
                 code := 502; msg := "Bad Gateway";
                 headers := [("Content-Type", "text/html")];
                 fp := "<html>bad gateway</html>" |}
              {| self := {| url := "https://registry.example"; token := VNone |};
                 net := 1;
                 sent := [{| req_url := "https://registry.example/v2/myrepo/app/tags/list";
                             req_method := "GET"; req_headers := [] |}];
                 stdout := [] |}
              eq_refl Hdata) as [Hnone _].
  rewrite (Hnone eq_refl). split; reflexivity.
Defined.

(** The challenge of the sample registry, read back. *)
Lemma challenge_round_trip_witness :
  "Bearer " +++
  challenge_text "https://auth.example/token" "registry.example"
    "repository:myrepo/app:pull,push"
  = "Bearer realm=" +++ quoted "https://auth.example/token" +++
    ",service=" +++ quoted "registry.example" +++
    ",scope=" +++ quoted "repository:myrepo/app:pull,push" /\
  challenge_dict
    (findall_pairs
       (challenge_text "https://auth.example/token" "registry.example"
          "repository:myrepo/app:pull,push"))
  = [("realm", "https://auth.example/token"); ("service", "registry.example");
     ("scope", "repository:myrepo/app:pull,push")].
Proof.
  assert (H1 : "https://auth.example/token" <> "") by discriminate.
  assert (H2 : "registry.example" <> "") by discriminate.
  assert (H3 : "repository:myrepo/app:pull,push" <> "") by discriminate.
  split; [reflexivity|].
  exact (proj2 (challenge_round_trip "https://auth.example/token"
                  "registry.example" "repository:myrepo/app:pull,push"
                  H1 eq_refl H2 eq_refl H3 eq_refl)).
Defined.
